(** * ducksearch: the batched search orchestration of [ducksearch/search/select.py]

    A shallow embedding of [_search] and [search].  The DuckDB statements
    behind the decorated functions, the parquet files on disk and joblib's
    [Parallel] are the environment of the code; they are modelled as an
    engine interface, a finite map from file names to rows, and a
    dispatcher driven by an arbitrary completion order.  The wrappers
    [documents] and [queries] only fix the schema and source names passed
    to [search]. *)

From Stdlib Require Import ZArith Lia.
From stdpp Require Import base option list strings gmap pretty.

Open Scope Z_scope.

(** ** Python values and dictionaries *)

(** The values found in a row returned by DuckDB.  A float is kept as its
    bit pattern: the code never computes with scores.  Values are compared
    structurally; Python identifies some numbers of different types as
    dictionary keys, which no lookup by a query string can observe. *)
Inductive value :=
| VNone
| VInt (z : Z)
| VFloat (bits : Z)
| VStr (s : string).

#[global] Instance value_eq_dec : EqDecision value.
Proof. solve_decision. Defined.

Definition value_to_sum (v : value) : unit + Z + Z + string :=
  match v with
  | VNone => inl (inl (inl tt))
  | VInt z => inl (inl (inr z))
  | VFloat b => inl (inr b)
  | VStr s => inr s
  end.

Definition value_of_sum (s : unit + Z + Z + string) : value :=
  match s with
  | inl (inl (inl _)) => VNone
  | inl (inl (inr z)) => VInt z
  | inl (inr b) => VFloat b
  | inr s => VStr s
  end.

#[global] Instance value_countable : Countable value.
Proof.
  apply (inj_countable' value_to_sum value_of_sum).
  by intros [].
Defined.

(** A row: a Python [dict] from column names to values. *)
Abbreviation record := (gmap string value).

(** ** Exceptions and outcomes *)

Inductive exn :=
| EngineError (msg : string)
| KeyError (key : string)
| IndexError
| ValueError (msg : string)
| FileNotFoundError (file : string).

Inductive outcome (A : Type) :=
| Raise (e : exn)
| Return (a : A).
Arguments Raise {A} e.
Arguments Return {A} a.

(** ** The result aggregation of [_search] (lines 280-284) *)

(** [dict.pop(key)]: the value and the dict without the key; [KeyError]
    when the key is missing. *)
Definition pop (key : string) (m : record) : outcome (value * record) :=
  match m !! key with
  | Some v => Return (v, delete key m)
  | None => Raise (KeyError key)
  end.

(** [candidates[key]] on a [collections.defaultdict(list)]: a missing key
    is first bound to a fresh empty list. *)
Definition getitem (candidates : gmap value (list record)) (key : value)
  : list record * gmap value (list record) :=
  match candidates !! key with
  | Some l => (l, candidates)
  | None => ([], <[key := []]> candidates)
  end.

(** [candidates[query].append(match)] *)
Definition append_candidate (candidates : gmap value (list record))
    (query : value) (match_ : record) : gmap value (list record) :=
  let '(l, candidates) := getitem candidates query in
  <[query := l ++ [match_]]> candidates.

(** The loop [for match in matchs: query = match.pop("_query");
    candidates[query].append(match)]. *)
Fixpoint group_matchs (matchs : list record)
    (candidates : gmap value (list record))
  : outcome (gmap value (list record)) :=
  match matchs with
  | [] => Return candidates
  | match_ :: matchs =>
      match pop "_query" match_ with
      | Raise e => Raise e
      | Return (query, match_) =>
          group_matchs matchs (append_candidate candidates query match_)
      end
  end.

(** The comprehension [[candidates[query] for query in queries]]; the
    dictionary is threaded because a lookup may extend it. *)
Fixpoint collect (queries : list string)
    (candidates : gmap value (list record)) : list (list record) :=
  match queries with
  | [] => []
  | query :: queries =>
      let '(l, candidates) := getitem candidates (VStr query) in
      l :: collect queries candidates
  end.

Definition aggregate (matchs : list record) (queries : list string)
  : outcome (list (list record)) :=
  match group_matchs matchs ∅ with
  | Raise e => Raise e
  | Return candidates => Return (collect queries candidates)
  end.

(** The records of [matchs] whose [_query] column is the text [query]. *)
Definition tagged (query : string) (m : record) : Prop :=
  m !! "_query" = Some (VStr query).

#[global] Instance tagged_dec query m : Decision (tagged query m).
Proof. unfold tagged. apply _. Defined.

(** A record with its origin-query tag removed. *)
Definition untag (m : record) : record := delete "_query" m.

(** The list bound to [key], empty when there is none. *)
Definition entry (candidates : gmap value (list record)) (key : value)
  : list record :=
  default [] (candidates !! key).

(** What [aggregate] returns: for every query of the batch, in order, the
    records tagged with it, untagged, in the order of [matchs]. *)
Definition slots_of (matchs : list record) (queries : list string)
  : list (list record) :=
  (λ q, untag <$> filter (tagged q) matchs) <$> queries.

(** ** Batches *)

(** Consecutive runs of [size] elements; the fuel bounds the number of
    runs and makes the definition total when [size] is zero. *)
Fixpoint chunks {A} (fuel : nat) (size : nat) (X : list A) : list (list A) :=
  match fuel with
  | O => []
  | S fuel =>
      match X with
      | [] => []
      | _ :: _ => take size X :: chunks fuel size (drop size X)
      end
  end.

(** Modelled from the spec: [batchify] of [ducksearch/utils], which is not
    among the sources.  Section 4.3: "partition(QuerySet, batch_size) ->
    [Batch] (last batch may be smaller)", fixed-size batches in input
    order.  The spec fixes the batches for a positive [batch_size] only,
    and the statements that depend on the partition assume one. *)
Definition batchify {A} (X : list A) (batch_size : Z) : list (list A) :=
  chunks (length X) (Z.to_nat batch_size) X.

(** [enumerate]: each element with its position. *)
Definition enumerate {A} (l : list A) : list (nat * A) :=
  imap (λ i x, (i, x)) l.

(** The name of the exchange file of batch [index]:
    [f"_queries_{index}.parquet"]. *)
Definition parquet_name (index : nat) : string :=
  "_queries_" +:+ pretty index +:+ ".parquet".

(** The [queries] argument of [search]: [str | list[str]]. *)
Inductive queries_arg :=
| QStr (s : string)
| QList (l : list string).

(** [if isinstance(queries, str): queries = [queries]] *)
Definition as_query_list (queries : queries_arg) : list string :=
  match queries with
  | QStr s => [s]
  | QList l => l
  end.

(** ** Computations that may raise

    The world reached is kept on both paths. *)
Definition M (W A : Type) : Type := W → outcome A * W.

Definition ret {W A} (a : A) : M W A := λ w, (Return a, w).
Definition bind {W A B} (c : M W A) (k : A → M W B) : M W B :=
  λ w, match c w with
       | (Raise e, w') => (Raise e, w')
       | (Return a, w') => k a w'
       end.
Definition lift {W A} (o : outcome A) : M W A := λ w, (o, w).

Notation "'let!' x ':=' c 'in' k" := (bind c (λ x, k))
  (at level 10, x name, c at level 100, k at level 200).
Notation "c '>>' k" := (bind c (λ _, k))
  (at level 61, k at level 200, right associativity, only parsing).

(** ** The world: exchange files, the database and a log of effects *)

Inductive Event :=
| EvWrite (file : string) (rows : list string)
| EvRemove (file : string)
| EvSelectSettings
| EvInsertQueries (file : string) (rows : list string)
| EvCreateQueriesIndex
| EvSearch (file : string) (rows : list string).

(** The effects of one batch: its file is written, scanned and removed. *)
Definition batch_event (e : Event) : Prop :=
  ∃ k rows, e = EvWrite (parquet_name k) rows ∨
            e = EvSearch (parquet_name k) rows ∨
            e = EvRemove (parquet_name k).

(** The effects that stage, load and index the whole query set. *)
Definition index_build_event (e : Event) : bool :=
  match e with
  | EvWrite file _ => bool_decide (file = "_queries.parquet")
  | EvInsertQueries _ _ | EvCreateQueriesIndex => true
  | _ => false
  end.

Section Orchestration.

(** The persistent state of the DuckDB database file. *)
Context {DB : Type}.

(** The statements run by the functions decorated with
    [execute_with_duckdb] (lines 14-43) and by [_select_settings] of
    [.create].  Neither the decorator nor the SQL files are among the
    sources, so they form an interface.  A statement reads the rows of the
    parquet file it is given.  The settings lookup and the two retrieval
    statements, declared with [read_only=True], return rows and no new
    database. *)
Record Engine := {
  select_settings :
    DB → string → string → option record → outcome (list record);
  insert_queries :
    DB → string → string → list string → option record → outcome DB;
  create_queries_index :
    DB → string → string → record → option record → outcome DB;
  search_query :
    DB → string → string → string → string → Z → Z → list string →
    option string → option record → outcome (list record);
  search_query_filters :
    DB → string → string → string → string → Z → Z → list string →
    option string → option record → outcome (list record);
}.

Record World := {
  fs : gmap string (list string);
  db : DB;
  log : list Event;
}.

Definition set_fs (f : gmap string (list string)) (w : World) : World :=
  {| fs := f; db := db w; log := log w |}.
Definition set_db (d : DB) (w : World) : World :=
  {| fs := fs w; db := d; log := log w |}.
Definition add_log (e : Event) (w : World) : World :=
  {| fs := fs w; db := db w; log := log w ++ [e] |}.

Variable eng : Engine.

(** Number of processors reported to joblib. *)
Variable cpu_count : Z.

(** *** Files *)

(** [pq.write_table(table, file)] creates or overwrites the file. *)
Definition write_table (rows : list string) (file : string) : M World unit :=
  λ w, (Return tt, add_log (EvWrite file rows) (set_fs (<[file := rows]> (fs w)) w)).

(** [os.path.exists(file)] *)
Definition path_exists (file : string) : M World bool :=
  λ w, (Return (bool_decide (is_Some (fs w !! file))), w).

(** [os.remove(file)] *)
Definition remove (file : string) : M World unit :=
  λ w, match fs w !! file with
       | Some _ => (Return tt, add_log (EvRemove file) (set_fs (delete file (fs w)) w))
       | None => (Raise (FileNotFoundError file), w)
       end.

(** The scan of a parquet file by a statement. *)
Definition read_parquet (file : string) : M World (list string) :=
  λ w, match fs w !! file with
       | Some rows => (Return rows, w)
       | None => (Raise (FileNotFoundError file), w)
       end.

(** *** The decorated functions *)

Definition _select_settings (database schema : string)
    (config : option record) : M World (list record) :=
  λ w, (select_settings eng (db w) database schema config,
        add_log EvSelectSettings w).

Definition _insert_queries (database schema parquet_file : string)
    (config : option record) : M World unit :=
  let! rows := read_parquet parquet_file in
  λ w, let w := add_log (EvInsertQueries parquet_file rows) w in
       match insert_queries eng (db w) database schema rows config with
       | Raise e => (Raise e, w)
       | Return d => (Return tt, set_db d w)
       end.

Definition _create_queries_index (database schema : string)
    (settings : record) (config : option record) : M World unit :=
  λ w, let w := add_log EvCreateQueriesIndex w in
       match create_queries_index eng (db w) database schema settings config with
       | Raise e => (Raise e, w)
       | Return d => (Return tt, set_db d w)
       end.

Definition _search_query (database schema source_schema source : string)
    (top_k top_k_token : Z) (parquet_file : string) (filters : option string)
    (config : option record) : M World (list record) :=
  let! rows := read_parquet parquet_file in
  λ w, (search_query eng (db w) database schema source_schema source
          top_k top_k_token rows filters config,
        add_log (EvSearch parquet_file rows) w).

Definition _search_query_filters (database schema source_schema source : string)
    (top_k top_k_token : Z) (parquet_file : string) (filters : option string)
    (config : option record) : M World (list record) :=
  let! rows := read_parquet parquet_file in
  λ w, (search_query_filters eng (db w) database schema source_schema source
          top_k top_k_token rows filters config,
        add_log (EvSearch parquet_file rows) w).

(** *** [_search] (lines 224-284) *)

Definition _search (database schema source_schema source : string)
    (queries : list string) (top_k top_k_token : Z) (index : nat)
    (config : option record) (filters : option string)
  : M World (list (list record)) :=
  let search_function :=
    if filters is Some _ then _search_query_filters else _search_query in
  let index_table := queries in
  write_table index_table (parquet_name index) >>
  let! matchs := search_function database schema source_schema source
                   top_k top_k_token (parquet_name index) filters config in
  let! present := path_exists (parquet_name index) in
  (if present then remove (parquet_name index) else ret tt) >>
  lift (aggregate matchs queries).

(** *** One batch as a function of the database *)

Section BatchOutcome.

Variables (database schema source_schema source : string).
Variables (top_k top_k_token : Z).
Variables (config : option record) (filters : option string).

(** The rows the engine returns for the batch [rows] on database [d]:
    the statement chosen on line 251. *)
Definition retrieve (d : DB) (rows : list string) : outcome (list record) :=
  (if filters is Some _ then search_query_filters eng else search_query eng)
    d database schema source_schema source top_k top_k_token rows filters config.

(** The outcome of a batch as a function of the database alone. *)
Definition batch_outcome (d : DB) (queries : list string)
  : outcome (list (list record)) :=
  match retrieve d queries with
  | Raise e => Raise e
  | Return matchs => aggregate matchs queries
  end.

(** The world after [_search] has staged its file and called the engine. *)
Definition searched (index : nat) (queries : list string) (w : World)
  : World :=
  add_log (EvSearch (parquet_name index) queries)
    (add_log (EvWrite (parquet_name index) queries)
       (set_fs (<[parquet_name index := queries]> (fs w)) w)).

(** The world after [_search] has removed its file. *)
Definition cleaned (index : nat) (queries : list string) (w : World)
  : World :=
  add_log (EvRemove (parquet_name index))
    (set_fs (delete (parquet_name index) (fs w)) (searched index queries w)).

End BatchOutcome.

(** *** joblib's [Parallel] with the threading backend *)

(** The number of workers joblib derives from [n_jobs]: zero is refused,
    a negative value counts back from the number of processors. *)
Definition effective_n_jobs (n_jobs : Z) : outcome Z :=
  if n_jobs =? 0 then Raise (ValueError "n_jobs == 0 in Parallel has no meaning")
  else if n_jobs <? 0 then Return (Z.max (cpu_count + 1 + n_jobs) 1)
  else Return n_jobs.

(** Jobs are handed to the workers in input order; [running] holds the
    jobs in flight and [queue] those not yet started.  [picks] chooses which
    job in flight completes next, and a job takes effect when it completes.
    The first exception ends the dispatch.  Results are stored under the
    position of their job. *)
Fixpoint dispatch {A} (fuel : nat) (picks : list nat)
    (running queue : list (nat * M World A)) (results : gmap nat A)
  : M World (gmap nat A) :=
  match fuel, running with
  | S fuel, first :: _ =>
      let p := (hd 0 picks `mod` length running)%nat in
      let '(i, job) := nth p running first in
      let! a := job in
      dispatch fuel (tl picks) (delete p running ++ take 1 queue)
        (drop 1 queue) (<[i := a]> results)
  | _, _ => ret results
  end.

Definition Parallel {A} (n_jobs : Z) (picks : list nat) (tasks : list (M World A))
  : M World (list A) :=
  let! workers := lift (effective_n_jobs n_jobs) in
  let jobs := enumerate tasks in
  let! results := dispatch (length jobs) picks (take (Z.to_nat workers) jobs)
                    (drop (Z.to_nat workers) jobs) ∅ in
  ret (omap (λ i, results !! i) (seq 0 (length tasks))).

(** The positions of the jobs in flight before each completion of a
    dispatch: the same steps as [dispatch], keeping [running] only. *)
Fixpoint in_flight {A} (fuel : nat) (picks : list nat)
    (running queue : list (nat * M World A)) (w : World) : list (list nat) :=
  match fuel, running with
  | S fuel, first :: _ =>
      let p := (hd 0 picks `mod` length running)%nat in
      running.*1 ::
      match (nth p running first).2 w with
      | (Raise _, _) => []
      | (Return _, w') =>
          in_flight fuel (tl picks) (delete p running ++ take 1 queue)
            (drop 1 queue) w'
      end
  | _, _ => []
  end.

Definition Parallel_in_flight {A} (n_jobs : Z) (picks : list nat)
    (tasks : list (M World A)) (w : World) : list (list nat) :=
  match effective_n_jobs n_jobs with
  | Raise _ => []
  | Return workers =>
      let jobs := enumerate tasks in
      in_flight (length jobs) picks (take (Z.to_nat workers) jobs)
        (drop (Z.to_nat workers) jobs) w
  end.

(** Jobs run one after the other in input order, in the calling thread. *)
Fixpoint run_serially {A} (tasks : list (M World A)) : M World (list A) :=
  match tasks with
  | [] => ret []
  | task :: tasks =>
      let! a := task in
      let! l := run_serially tasks in
      ret (a :: l)
  end.

(** *** [search] (lines 287-405) *)

(** [settings_rows[0]] *)
Definition first_row (rows : list record) : outcome record :=
  match rows with
  | [] => Raise IndexError
  | row :: _ => Return row
  end.

(** [picks] is the completion order taken by [Parallel]; the call to
    [logging.info] has no effect on the world. *)
Definition search (database schema source_schema source : string)
    (queries : queries_arg) (batch_size top_k top_k_token n_jobs : Z)
    (config : option record) (filters : option string) (picks : list nat)
  : M World (list (list record)) :=
  let queries := as_query_list queries in
  let index_table := queries in
  let! rows := _select_settings database schema config in
  let! settings := lift (first_row rows) in
  write_table index_table "_queries.parquet" >>
  _insert_queries database schema "_queries.parquet" config >>
  _create_queries_index database schema settings config >>
  let! matchs :=
    Parallel (if Z.of_nat (length queries) <=? batch_size then 1 else n_jobs)
      picks
      (map (λ '(index, batch_queries),
              _search database schema source_schema source batch_queries
                top_k top_k_token index config filters)
           (enumerate (batchify queries batch_size))) in
  ret (concat matchs).

(** *** The two phases of [search], for the statements below *)

(** The world once the whole query set is staged and handed to the
    insert statement. *)
Definition staged (queries : list string) (w : World) : World :=
  add_log (EvInsertQueries "_queries.parquet" queries)
    (add_log (EvWrite "_queries.parquet" queries)
       (set_fs (<["_queries.parquet" := queries]> (fs w))
          (add_log EvSelectSettings w))).

(** The world when the index of the queries is built: [d1] is the database
    after the insert, [d2] after the index. *)
Definition indexed (queries : list string) (d1 d2 : DB) (w : World) : World :=
  set_db d2 (add_log EvCreateQueriesIndex (set_db d1 (staged queries w))).

(** The effects of lines 357-381 on a query set, in order. *)
Definition index_events (queries : list string) : list Event :=
  [EvSelectSettings;
   EvWrite "_queries.parquet" queries;
   EvInsertQueries "_queries.parquet" queries;
   EvCreateQueriesIndex].

(** No exchange file is left: neither the staged query set nor the file of
    any batch. *)
Definition no_exchange_file_left (w : World) : Prop :=
  fs w !! "_queries.parquet" = None ∧ ∀ k, fs w !! parquet_name k = None.

(** The jobs of the retrieval phase, one per batch (lines 387-401). *)
Definition batch_jobs (database schema source_schema source : string)
    (queries : list string) (batch_size top_k top_k_token : Z)
    (config : option record) (filters : option string)
  : list (M World (list (list record))) :=
  map (λ '(index, batch_queries),
         _search database schema source_schema source batch_queries
           top_k top_k_token index config filters)
      (enumerate (batchify queries batch_size)).

(** Lines 383-405: the batches are dispatched and their results joined. *)
Definition retrieval_phase (database schema source_schema source : string)
    (queries : list string) (batch_size top_k top_k_token n_jobs : Z)
    (config : option record) (filters : option string) (picks : list nat)
  : M World (list (list record)) :=
  let! matchs :=
    Parallel (if Z.of_nat (length queries) <=? batch_size then 1 else n_jobs)
      picks
      (batch_jobs database schema source_schema source queries batch_size
         top_k top_k_token config filters) in
  ret (concat matchs).

End Orchestration.

Arguments Engine : clear implicits.
Arguments World : clear implicits.

(** ** The contract of the retrieval statements *)

Section Contract.

Context {DB : Type} (eng : Engine DB).

(** Modelled from the spec: the retrieval statements
    [search/select/search.sql] and [search/select/search_filters.sql] are
    not among the sources.  Section 4.2: "for every query row in artifact,
    returns up to top_k best-scoring rows from source"; a record belongs to
    a query when it is "tagged with the query text that produced it". *)
Definition retrieve_up_to_top_k : Prop :=
  ∀ database schema source_schema source top_k top_k_token config filters
    d rows matchs,
    retrieve eng database schema source_schema source top_k top_k_token
      config filters d rows = Return matchs →
    ∀ query, (length (filter (tagged query) matchs) ≤ Z.to_nat top_k)%nat.

(** Modelled from the spec: the same statements.  Section 4.2: the rows
    returned for a query are the "best-scoring rows from source" for that
    query; section 8, batch-size invariance: they do not depend on the
    other rows of the artifact. *)
Definition retrieve_per_query : Prop :=
  ∀ database schema source_schema source top_k top_k_token config filters
    d rows1 rows2 matchs1 matchs2 query,
    retrieve eng database schema source_schema source top_k top_k_token
      config filters d rows1 = Return matchs1 →
    retrieve eng database schema source_schema source top_k top_k_token
      config filters d rows2 = Return matchs2 →
    query ∈ rows1 → query ∈ rows2 →
    filter (tagged query) matchs1 = filter (tagged query) matchs2.

(** Modelled from the spec: the same statements.  Section 6: "Output
    record minimum fields: {id, score, <source-table fields>}". *)
Definition retrieve_id_score : Prop :=
  ∀ database schema source_schema source top_k top_k_token config filters
    d rows matchs,
    retrieve eng database schema source_schema source top_k top_k_token
      config filters d rows = Return matchs →
    ∀ m : record, m ∈ matchs → is_Some (m !! "id") ∧ is_Some (m !! "score").

End Contract.

(** ** Invariants of the dispatch *)

Section Invariants.

Context {DB : Type}.

(** [Inv] is kept by every job; under it job [i] has the outcome [out i];
    a job that returns establishes [Post i] and keeps every [Post j]. *)
Definition job_spec {A} (Inv : World DB → Prop) (Post : nat → World DB → Prop)
    (out : nat → outcome A) (i : nat) (job : M (World DB) A) : Prop :=
  ∀ w, Inv w →
    (job w).1 = out i ∧ Inv (job w).2 ∧
    (∀ a, out i = Return a →
       Post i (job w).2 ∧ ∀ j, Post j w → Post j (job w).2).

(** What the retrieval phase keeps true of the world it started from:
    the database is untouched, only batch effects are logged, and no file
    other than a batch file changes. *)
Definition retrieval_inv (w0 w : World DB) : Prop :=
  db w = db w0 ∧
  (∃ tail, log w = log w0 ++ tail ∧ Forall batch_event tail) ∧
  (∀ name, (∀ k, name ≠ parquet_name k) → fs w !! name = fs w0 !! name).

Definition batch_file_gone (k : nat) (w : World DB) : Prop :=
  fs w !! parquet_name k = None.

(** The outcome of batch [k] of [batches] on database [d]. *)
Definition batch_out (eng : Engine DB)
    (database schema source_schema source : string) (top_k top_k_token : Z)
    (config : option record) (filters : option string)
    (d : DB) (batches : list (list string)) (k : nat)
  : outcome (list (list record)) :=
  match batches !! k with
  | Some b =>
      batch_outcome eng database schema source_schema source top_k
        top_k_token config filters d b
  | None => Raise IndexError
  end.

End Invariants.

(** ** A small engine for examples

    The database is the list of indexed queries.  Retrieval answers every
    distinct query of the batch other than [miss] with one record; a batch
    containing [boom] makes it fail. *)
Module Toy.

Definition toy_row (q : string) : record :=
  {[ "_query" := VStr q; "id" := VStr ("doc-" +:+ q); "score" := VFloat 1 ]}.

Definition toy_search (d : list string)
    (database schema source_schema source : string)
    (top_k top_k_token : Z) (rows : list string) (filters : option string)
    (config : option record) : outcome (list record) :=
  if bool_decide ("boom" ∈ rows) then Raise (EngineError "boom")
  else if top_k <=? 0 then Return []
  else Return (toy_row <$> remove_dups (filter (λ q, q ≠ "miss") rows)).

Definition engine : Engine (list string) := {|
  select_settings _ _ _ _ := Return [ ({[ "analyzer" := VStr "word" ]} : record) ];
  insert_queries d _ _ rows _ := Return (d ++ rows);
  create_queries_index d _ _ _ _ := Return d;
  search_query := toy_search;
  search_query_filters := toy_search;
|}.

Definition w0 : World (list string) := {| fs := ∅; db := []; log := [] |}.

(** [search] on the toy engine with four processors, [top_k = 10]. *)
Definition run (queries : queries_arg) (batch_size n_jobs : Z) (picks : list nat)
  : outcome (list (list record)) * World (list string) :=
  search engine 4 "test.duckdb" "bm25_documents" "bm25_tables"
    "documents" queries batch_size 10 10000 n_jobs None None picks w0.

(** Five queries, one repeated across batches and one without answers. *)
Definition five : queries_arg := QList ["a"; "b"; "miss"; "a"; "c"].

(** The result list of a run, empty when it raised. *)
Definition slots (r : outcome (list (list record)) * World (list string))
  : list (list record) :=
  match r.1 with
  | Return R => R
  | Raise _ => []
  end.

End Toy.

(** ** The wrappers [documents] and [queries] (lines 46-221)

    Each forwards its arguments to [search] with the names of its schema
    and source; [kwargs] collects the keyword arguments that the signature
    does not name and is not used. *)
Module Wrappers.
Section Wrappers.

Context {DB : Type} (eng : Engine DB) (cpu_count : Z).


Definition queries (database : string) (queries : queries_arg)
    (batch_size top_k top_k_token n_jobs : Z) (config : option record)
    (filters : option string) (kwargs : gmap string value) (picks : list nat)
  : M (World DB) (list (list record)) :=
  search eng cpu_count database "bm25_queries" "bm25_tables" "queries"
    queries batch_size top_k top_k_token n_jobs config filters picks.

End Wrappers.
End Wrappers.

(** ** The effects of the batches *)


(** An effect of a batch whose position is at most [n]. *)
Definition batch_event_upto (n : nat) (e : Event) : Prop :=
  ∃ k rows, (k ≤ n)%nat ∧
    (e = EvWrite (parquet_name k) rows ∨
     e = EvSearch (parquet_name k) rows ∨
     e = EvRemove (parquet_name k)).

(** The records of [matchs] tagged with some query of [queries]. *)
Definition tagged_by (queries : list string) (m : record) : Prop :=
  Exists (λ q, tagged q m) queries.

#[global] Instance tagged_by_dec queries m : Decision (tagged_by queries m).
Proof. unfold tagged_by. apply _. Defined.

(** ** Engines that fail, for examples *)
Module Faulty.

(** The schema has no settings row. *)
Definition no_settings : Engine (list string) := {|
  select_settings _ _ _ _ := Return [];
  insert_queries := insert_queries Toy.engine;
  create_queries_index := create_queries_index Toy.engine;
  search_query := search_query Toy.engine;
  search_query_filters := search_query_filters Toy.engine;
|}.

(** The index build fails after the insert. *)
Definition index_fails : Engine (list string) := {|
  select_settings := select_settings Toy.engine;
  insert_queries := insert_queries Toy.engine;
  create_queries_index _ _ _ _ _ := Raise (EngineError "index");
  search_query := search_query Toy.engine;
  search_query_filters := search_query_filters Toy.engine;
|}.

(** Retrieval returns one record without the [_query] column. *)
Definition untagged : Engine (list string) := {|
  select_settings := select_settings Toy.engine;
  insert_queries := insert_queries Toy.engine;
  create_queries_index := create_queries_index Toy.engine;
  search_query _ _ _ _ _ _ _ _ _ _ := Return [ ({[ "id" := VStr "doc" ]} : record) ];
  search_query_filters _ _ _ _ _ _ _ _ _ _ :=
    Return [ ({[ "id" := VStr "doc" ]} : record) ];
|}.

(** The statement without filters always fails. *)
Definition no_plain_search : Engine (list string) := {|
  select_settings := select_settings Toy.engine;
  insert_queries := insert_queries Toy.engine;
  create_queries_index := create_queries_index Toy.engine;
  search_query _ _ _ _ _ _ _ _ _ _ := Raise (EngineError "plain");
  search_query_filters := search_query_filters Toy.engine;
|}.

(** A world in which exchange files of an earlier call are left. *)
Definition littered : World (list string) :=
  {| fs := {[ "_queries.parquet" := ["old"]; "_queries_0.parquet" := ["stale"];
              "notes.txt" := ["keep"] ]};
     db := []; log := [EvSelectSettings] |}.

End Faulty.

(** * Properties *)

(** ** Aggregation *)

Lemma getitem_fst candidates key :
  (getitem candidates key).1 = entry candidates key.
Proof. unfold getitem, entry. by destruct (candidates !! key). Qed.

Lemma getitem_snd candidates key k :
  entry (getitem candidates key).2 k = entry candidates k.
Proof.
  unfold getitem, entry.
  destruct (candidates !! key) eqn:E; simpl; [done|].
  destruct (decide (key = k)) as [->|Hne].
  - by rewrite lookup_insert_eq, E.
  - by rewrite lookup_insert_ne.
Qed.

Lemma append_candidate_entry candidates query m k :
  entry (append_candidate candidates query m) k =
  entry candidates k ++ (if decide (query = k) then [m] else []).
Proof.
  unfold append_candidate.
  pose proof (getitem_fst candidates query) as H1.
  pose proof (getitem_snd candidates query k) as H2.
  destruct (getitem candidates query) as [l c]; simpl in *. subst l.
  unfold entry at 1. case_decide as Hk.
  - subst k. by rewrite lookup_insert_eq.
  - rewrite lookup_insert_ne by done. fold (entry c k).
    by rewrite H2, app_nil_r.
Qed.

Lemma group_matchs_entry matchs candidates candidates' k :
  group_matchs matchs candidates = Return candidates' →
  entry candidates' k =
  entry candidates k ++ (untag <$> filter (λ m, m !! "_query" = Some k) matchs).
Proof.
  revert candidates. induction matchs as [|m matchs IH]; intros candidates; simpl.
  - intros [= <-]. by rewrite app_nil_r.
  - unfold pop. destruct (m !! "_query") as [v|] eqn:Hv; [|done].
    intros H. rewrite (IH _ H), append_candidate_entry, <- app_assoc. f_equal.
    rewrite filter_cons. case_decide as Hk; case_decide as Hk'; try done.
    + congruence.
    + rewrite Hv in Hk'. congruence.
Qed.

Lemma group_matchs_Return matchs candidates :
  Forall (λ m : record, is_Some (m !! "_query")) matchs →
  ∃ candidates', group_matchs matchs candidates = Return candidates'.
Proof.
  intros H. revert candidates. induction H as [|m matchs [v Hv] _ IH];
    intros candidates; simpl; [by eexists|].
  unfold pop. rewrite Hv. apply IH.
Qed.

Lemma group_matchs_Raise matchs candidates e :
  group_matchs matchs candidates = Raise e →
  e = KeyError "_query" ∧ Exists (λ m : record, m !! "_query" = None) matchs.
Proof.
  revert candidates. induction matchs as [|m matchs IH]; intros candidates; simpl; [done|].
  unfold pop. destruct (m !! "_query") as [v|] eqn:Hv.
  - intros H. destruct (IH _ H) as [-> ?]. split; [done|]. by apply Exists_cons_tl.
  - intros [= <-]. split; [done|]. by apply Exists_cons_hd.
Qed.

Lemma collect_entry queries candidates :
  collect queries candidates = (λ q, entry candidates (VStr q)) <$> queries.
Proof.
  revert candidates. induction queries as [|q queries IH]; intros candidates; simpl; [done|].
  pose proof (getitem_fst candidates (VStr q)) as H1.
  pose proof (getitem_snd candidates (VStr q)) as H2.
  destruct (getitem candidates (VStr q)) as [l c]; simpl in *. subst l.
  rewrite IH. f_equal. apply list_fmap_ext. intros _ q' _. apply H2.
Qed.

Lemma aggregate_Return matchs queries slots :
  aggregate matchs queries = Return slots → slots = slots_of matchs queries.
Proof.
  unfold aggregate. destruct (group_matchs matchs ∅) as [e|c] eqn:E; [done|].
  intros [= <-]. rewrite collect_entry. apply list_fmap_ext. intros _ q _.
  rewrite (group_matchs_entry _ _ _ _ E). unfold entry at 1.
  by rewrite lookup_empty.
Qed.

Lemma aggregate_Raise matchs queries e :
  aggregate matchs queries = Raise e → e = KeyError "_query".
Proof.
  unfold aggregate. destruct (group_matchs matchs ∅) as [e'|c] eqn:E; [|done].
  intros [= <-]. by destruct (group_matchs_Raise _ _ _ E).
Qed.

Lemma aggregate_total matchs queries :
  Forall (λ m : record, is_Some (m !! "_query")) matchs →
  aggregate matchs queries = Return (slots_of matchs queries).
Proof.
  intros H. destruct (aggregate matchs queries) as [e|slots] eqn:E.
  - unfold aggregate in E.
    destruct (group_matchs_Return matchs ∅ H) as [c Hc]. by rewrite Hc in E.
  - by rewrite (aggregate_Return _ _ _ E).
Qed.

(** ** Lists *)

Lemma filter_none {X} (P : X → Prop) `{∀ x, Decision (P x)} (l : list X) :
  (∀ x, x ∈ l → ¬ P x) → filter P l = [].
Proof.
  induction l as [|x l IH]; intros Hl; [done|].
  rewrite filter_cons, decide_False by (apply Hl, elem_of_cons; by left).
  apply IH. intros y Hy. apply Hl, elem_of_cons. by right.
Qed.

Lemma elem_of_concat {X} (x : X) (ls : list (list X)) :
  x ∈ concat ls → ∃ l, x ∈ l ∧ l ∈ ls.
Proof.
  induction ls as [|l ls IH]; cbn [concat]; [by intros ?%elem_of_nil|].
  intros [Hx|Hx]%elem_of_app.
  - exists l. split; [done|]. apply elem_of_cons. by left.
  - destruct (IH Hx) as (l' & ? & ?). exists l'. split; [done|].
    apply elem_of_cons. by right.
Qed.

Lemma concat_length_Forall2 {X Y} (bs : list (list X)) (outs : list (list Y)) :
  Forall2 (λ b s, length s = length b) bs outs →
  length (concat outs) = length (concat bs).
Proof.
  induction 1 as [|b s bs outs Hbs _ IH]; [done|].
  cbn [concat]. rewrite !length_app. lia.
Qed.

(** ** Batches *)

Section Chunks.

Context {A B : Type}.

Lemma chunks_concat fuel (n : nat) : ∀ X : list A,
  (0 < n)%nat → (length X ≤ fuel)%nat → concat (chunks fuel n X) = X.
Proof.
  induction fuel as [|fuel IH]; intros X Hn Hlen.
  { by destruct X; [|simpl in Hlen; lia]. }
  destruct X as [|x X]; [done|]. cbn [chunks concat].
  rewrite IH; [apply take_drop|done|].
  rewrite length_drop. simpl in *. lia.
Qed.

(** Position [i] of the input lies in batch [i / n] at offset [i mod n],
    and so does position [i] of any per-batch results joined in order. *)
Lemma chunks_lookup fuel (n : nat) : ∀ (X : list A) (outs : list (list B)) (i : nat),
  (0 < n)%nat → (length X ≤ fuel)%nat →
  Forall2 (λ b s, length s = length b) (chunks fuel n X) outs →
  (i < length X)%nat →
  ∃ b s, chunks fuel n X !! (i `div` n)%nat = Some b ∧
         outs !! (i `div` n)%nat = Some s ∧
         b !! (i `mod` n)%nat = X !! i ∧
         concat outs !! i = s !! (i `mod` n)%nat.
Proof.
  induction fuel as [|fuel IH]; intros X outs i Hn Hlen Hall Hi; [lia|].
  destruct X as [|x X]; [simpl in Hi; lia|].
  cbn [chunks] in *. set (X0 := x :: X) in *.
  apply Forall2_cons_inv_l in Hall as (s0 & outs' & Hs0 & Hall & ->).
  rewrite length_take in Hs0.
  destruct (decide (i < n)%nat) as [Hlt|Hge].
  - rewrite Nat.div_small, Nat.mod_small by done.
    exists (take n X0), s0. split; [done|]. split; [done|]. split.
    + by apply lookup_take_lt.
    + cbn [concat]. apply lookup_app_l. lia.
  - assert (Hs0' : length s0 = n) by lia.
    destruct (IH (drop n X0) outs' (i - n)%nat) as (b & s & Hb & Hs & Hbi & Hc).
    + done.
    + rewrite length_drop. subst X0. simpl in *. lia.
    + done.
    + rewrite length_drop. lia.
    + assert (Hdiv : (i `div` n = S ((i - n) `div` n))%nat).
      { replace i with ((i - n) + 1 * n)%nat at 1 by lia.
        rewrite Nat.div_add by lia. lia. }
      assert (Hmod : (i `mod` n = (i - n) `mod` n)%nat).
      { replace i with ((i - n) + 1 * n)%nat at 1 by lia.
        by rewrite Nat.Div0.mod_add. }
      rewrite Hdiv, Hmod. exists b, s. split; [done|]. split; [done|]. split.
      * rewrite Hbi, lookup_drop. f_equal. lia.
      * cbn [concat]. rewrite lookup_app_r by lia. by rewrite Hs0'.
Qed.

End Chunks.

(** The scenario of the spec: 500 queries in batches of 30. *)
Example batchify_500_by_30 :
  length (batchify (replicate 500 "q") 30) = 17%nat ∧
  length <$> last (batchify (replicate 500 "q") 30) = Some 20%nat.
Proof. by vm_compute. Qed.

Example parquet_name_12 : parquet_name 12 = "_queries_12.parquet".
Proof. by vm_compute. Qed.

(** ** Running a computation *)

Lemma bind_run {W A B} (c : M W A) (k : A → M W B) (w : W) :
  bind c k w =
  match c w with
  | (Raise e, w') => (Raise e, w')
  | (Return a, w') => k a w'
  end.
Proof. done. Qed.

(** ** One batch *)

Section Batch.

Context {DB : Type} (eng : Engine DB).
Variables (database schema source_schema source : string).
Variables (top_k top_k_token : Z).
Variables (config : option record) (filters : option string).

#[local] Abbreviation retrieve :=
  (retrieve eng database schema source_schema source top_k top_k_token
     config filters).
#[local] Abbreviation batch_outcome :=
  (batch_outcome eng database schema source_schema source top_k top_k_token
     config filters).

Lemma _search_run queries index w :
  _search eng database schema source_schema source queries top_k top_k_token
    index config filters w =
  match retrieve (db w) queries with
  | Raise e => (Raise e, searched index queries w)
  | Return matchs => (aggregate matchs queries, cleaned index queries w)
  end.
Proof.
  assert (Hread : ∀ w' : World DB,
    fs w' !! parquet_name index = Some queries →
    read_parquet (parquet_name index) w' = (Return queries, w')).
  { intros w' H. unfold read_parquet. by rewrite H. }
  assert (Hex : ∀ w' : World DB,
    fs w' !! parquet_name index = Some queries →
    path_exists (parquet_name index) w' = (Return true, w')).
  { intros w' H. unfold path_exists.
    by rewrite bool_decide_eq_true_2 by (by rewrite H). }
  assert (Hrm : ∀ w' : World DB,
    fs w' !! parquet_name index = Some queries →
    remove (parquet_name index) w' =
    (Return (), add_log (EvRemove (parquet_name index))
                  (set_fs (delete (parquet_name index) (fs w')) w'))).
  { intros w' H. unfold remove. by rewrite H. }
  unfold _search, retrieve.
  set (w1 := add_log (EvWrite (parquet_name index) queries)
               (set_fs (<[parquet_name index := queries]> (fs w)) w)).
  assert (H1 : fs w1 !! parquet_name index = Some queries)
    by apply lookup_insert_eq.
  unfold bind at 1. change (write_table queries (parquet_name index) w)
    with (Return (), w1).
  cbv beta iota.
  destruct filters as [f|];
    [unfold _search_query_filters | unfold _search_query];
    unfold bind at 1; unfold bind at 1; rewrite (Hread _ H1);
    change (db w1) with (db w);
    match goal with |- context [match ?o with Raise _ => _ | Return _ => _ end] =>
      destruct o as [e|matchs] end; try done.
  all: unfold bind at 1; rewrite Hex by done.
  all: unfold bind at 1; rewrite Hrm by done.
  all: unfold lift, cleaned, searched; subst w1; cbn [fs add_log set_fs].
  all: by rewrite delete_insert_eq.
Qed.

Lemma untag_fields (m : record) :
  untag m !! "_query" = None ∧
  ∀ field, field ≠ "_query" → untag m !! field = m !! field.
Proof.
  unfold untag. split; [apply lookup_delete_eq|].
  intros field Hne. by apply lookup_delete_ne.
Qed.

Lemma batch_outcome_Return d queries slots :
  batch_outcome d queries = Return slots →
  ∃ matchs, retrieve d queries = Return matchs ∧ slots = slots_of matchs queries.
Proof.
  unfold batch_outcome.
  destruct (retrieve d queries) as [e|matchs]; [done|].
  intros H. exists matchs. split; [done|]. by apply aggregate_Return.
Qed.

Lemma slots_of_lookup matchs queries i query :
  queries !! i = Some query →
  slots_of matchs queries !! i = Some (untag <$> filter (tagged query) matchs).
Proof. intros H. unfold slots_of. by rewrite list_lookup_fmap, H. Qed.

(** C7: for each position [i] of a batch, the slot [_search] returns is the
    subsequence of the records returned by the engine that are tagged with
    the query text at [i], in the engine's order, each without its [_query]
    field and with every other field unchanged. *)
Theorem _search_slot_is_tagged_subsequence queries index (w w' : World DB) slots :
  _search eng database schema source_schema source queries top_k top_k_token
    index config filters w = (Return slots, w') →
  ∃ matchs, retrieve (db w) queries = Return matchs ∧
    length slots = length queries ∧
    ∀ i query, queries !! i = Some query →
      ∃ slot, slots !! i = Some slot ∧
        Forall2 (λ (m r : record),
                   r !! "_query" = None ∧
                   ∀ field, field ≠ "_query" → r !! field = m !! field)
          (filter (tagged query) matchs) slot.
Proof.
  rewrite _search_run. intros H.
  destruct (retrieve (db w) queries) as [e|matchs] eqn:E; [done|].
  injection H as H _. apply aggregate_Return in H. subst slots.
  exists matchs. split; [done|]. split; [apply length_fmap|].
  intros i query Hi. eexists. split; [by apply slots_of_lookup|].
  apply Forall2_fmap_r, Forall_Forall2_diag, Forall_forall.
  intros m _. apply untag_fields.
Qed.

End Batch.

(** ** The dispatcher *)

Section Dispatch.

Context {DB : Type} {A : Type}.

Variable Inv : World DB → Prop.
Variable Post : nat → World DB → Prop.
Variable out : nat → outcome A.

Lemma dispatch_step fuel picks first running0 queue results (w : World DB) :
  dispatch (A:=A) (S fuel) picks (first :: running0) queue results w =
  let running := first :: running0 in
  let p := (hd 0 picks `mod` length running)%nat in
  match (nth p running first).2 w with
  | (Raise e, w') => (Raise e, w')
  | (Return a, w') =>
      dispatch fuel (tl picks) (delete p running ++ take 1 queue)
        (drop 1 queue) (<[(nth p running first).1 := a]> results) w'
  end.
Proof.
  cbn [dispatch]. cbv zeta.
  by destruct (nth (hd 0 picks `mod` length (first :: running0))%nat
                 (first :: running0) first) as [i job].
Qed.

Lemma dispatch_spec fuel : ∀ picks running queue results w,
  (∀ i job, (i, job) ∈ running ++ queue → job_spec Inv Post out i job) →
  Inv w →
  (length (running ++ queue) ≤ fuel)%nat →
  (running = [] → queue = []) →
  let r := dispatch fuel picks running queue results w in
  Inv r.2 ∧
  match r.1 with
  | Return results' =>
      (∀ j, Post j w → Post j r.2) ∧
      (∀ i job, (i, job) ∈ running ++ queue →
         ∃ a, out i = Return a ∧ results' !! i = Some a ∧ Post i r.2) ∧
      (∀ i, i ∉ (running ++ queue).*1 → results' !! i = results !! i)
  | Raise e => ∃ i job, (i, job) ∈ running ++ queue ∧ out i = Raise e
  end.
Proof.
  induction fuel as [|fuel IH]; intros picks running queue results w Hjobs Hinv Hlen Hrq.
  { destruct (running ++ queue) eqn:E; simpl in Hlen; [|lia].
    simpl. split; [done|]. split; [done|]. split; [|done].
    intros i job Hin. by apply elem_of_nil in Hin. }
  destruct running as [|first running0].
  { rewrite (Hrq eq_refl). simpl. split; [done|]. split; [done|]. split; [|done].
    intros i job Hin. by apply elem_of_nil in Hin. }
  clear Hrq. intros r. subst r. rewrite dispatch_step. cbv zeta.
  set (running := first :: running0) in *.
  assert (Hp : (hd 0 picks `mod` length running < length running)%nat).
  { apply Nat.mod_upper_bound. subst running. simpl. lia. }
  destruct (lookup_lt_is_Some_2 _ _ Hp) as [[i job] Hij].
  assert (Hnth : nth (hd 0 picks `mod` length running)%nat running first = (i, job)).
  { by rewrite nth_lookup, Hij. }
  rewrite Hnth. cbn [fst snd].
  assert (Hperm : running ++ queue ≡ₚ
    (i, job) :: ((delete (hd 0 picks `mod` length running)%nat running
                    ++ take 1 queue) ++ drop 1 queue)).
  { rewrite <- app_assoc, take_drop.
    by rewrite (delete_Permutation _ _ _ Hij) at 1. }
  assert (Hin : (i, job) ∈ running ++ queue).
  { rewrite Hperm. apply elem_of_cons. by left. }
  destruct (Hjobs _ _ Hin w Hinv) as (Hout & Hinv' & Hpost).
  destruct (job w) as [[e|a] w'] eqn:Ejob; cbn [fst snd] in *.
  { split; [done|]. exists i, job. done. }
  destruct (Hpost a (eq_sym Hout)) as [Hpi Hpj].
  specialize (IH (tl picks)
    (delete (hd 0 picks `mod` length running)%nat running ++ take 1 queue)
    (drop 1 queue) (<[i := a]> results) w').
  destruct IH as [IHinv IHres].
  - intros i' job' Hin'. apply Hjobs. rewrite Hperm. apply elem_of_cons. by right.
  - done.
  - rewrite Hperm in Hlen. cbn [length] in Hlen. lia.
  - intros Hnil. apply app_eq_nil in Hnil as [_ Hq].
    destruct queue; [done|]. simpl in Hq. done.
  - split; [done|].
    match goal with |- match ?o with Raise _ => _ | Return _ => _ end =>
      destruct o as [e|results'] end.
    + destruct IHres as (i' & job' & Hin' & Hraise). exists i', job'. split; [|done].
      rewrite Hperm. apply elem_of_cons. by right.
    + destruct IHres as (Hkeep & Hdone & Hother). split; [|split].
      * intros j Hj. apply Hkeep, Hpj, Hj.
      * intros i' job' Hin'. rewrite Hperm in Hin'.
        apply elem_of_cons in Hin' as [[= -> ->]|Hin']; [|by eapply Hdone].
        exists a. split; [done|]. split; [|by apply Hkeep].
        destruct (decide (i ∈ ((delete (hd 0 picks `mod` length running)%nat running
                    ++ take 1 queue) ++ drop 1 queue).*1)) as [Hi|Hi].
        -- apply list_elem_of_fmap in Hi as ([i2 job2] & -> & Hin2).
           destruct (Hdone _ _ Hin2) as (a2 & Ha2 & Hl2 & _). simpl in *.
           congruence.
        -- rewrite (Hother _ Hi). apply lookup_insert_eq.
      * intros i' Hi'. rewrite Hother.
        -- apply lookup_insert_ne. intros ->. apply Hi'.
           apply list_elem_of_fmap. exists (i', job). done.
        -- intros Hi2. apply Hi'. rewrite Hperm. rewrite fmap_cons.
           apply elem_of_cons. by right.
Qed.

Lemma omap_seq_total {B} (f : nat → option B) (n s : nat) :
  (∀ i, (i < n)%nat → is_Some (f (s + i)%nat)) →
  length (omap f (seq s n)) = n ∧
  ∀ i, (i < n)%nat → omap f (seq s n) !! i = f (s + i)%nat.
Proof.
  revert s. induction n as [|n IH]; intros s Hf.
  { split; [done|]. intros i Hi. lia. }
  destruct (Hf 0%nat ltac:(lia)) as [b Hb]. rewrite Nat.add_0_r in Hb.
  change (omap f (seq s (S n))) with
    (match f s with
     | Some y => y :: omap f (seq (S s) n)
     | None => omap f (seq (S s) n)
     end).
  rewrite Hb. destruct (IH (S s)) as [IHlen IHlook].
  { intros i Hi. replace (S s + i)%nat with (s + S i)%nat by lia. apply Hf. lia. }
  split; [cbn [length]; by rewrite IHlen|].
  intros [|i] Hi.
  - by rewrite Nat.add_0_r.
  - cbn [lookup list_lookup]. rewrite IHlook by lia. f_equal. lia.
Qed.

Lemma elem_of_enumerate {B} (l : list B) i x :
  (i, x) ∈ enumerate l ↔ l !! i = Some x.
Proof.
  unfold enumerate. rewrite elem_of_lookup_imap. split.
  - by intros (i' & x' & [= -> ->] & H).
  - intros H. by exists i, x.
Qed.

Variable cpu_count : Z.

Lemma effective_n_jobs_pos n_jobs workers :
  effective_n_jobs cpu_count n_jobs = Return workers → 1 ≤ workers.
Proof.
  unfold effective_n_jobs.
  destruct (Z.eqb_spec n_jobs 0); [done|].
  destruct (Z.ltb_spec n_jobs 0); intros [= <-]; lia.
Qed.

Lemma Parallel_spec n_jobs picks (tasks : list (M (World DB) A)) w :
  (∀ i job, tasks !! i = Some job → job_spec Inv Post out i job) →
  Inv w →
  let r := Parallel cpu_count n_jobs picks tasks w in
  Inv r.2 ∧
  match r.1 with
  | Return l =>
      length l = length tasks ∧
      (∀ j, Post j w → Post j r.2) ∧
      (∀ i, (i < length tasks)%nat →
         ∃ a, out i = Return a ∧ l !! i = Some a ∧ Post i r.2)
  | Raise e =>
      effective_n_jobs cpu_count n_jobs = Raise e ∨
      ∃ i, (i < length tasks)%nat ∧ out i = Raise e
  end.
Proof.
  intros Hjobs Hinv r. subst r. unfold Parallel, bind, lift.
  destruct (effective_n_jobs cpu_count n_jobs) as [e|workers] eqn:Ew.
  { simpl. split; [done|]. by left. }
  apply effective_n_jobs_pos in Ew.
  set (jobs := enumerate tasks).
  pose proof (dispatch_spec (length jobs) picks (take (Z.to_nat workers) jobs)
    (drop (Z.to_nat workers) jobs) ∅ w) as H.
  rewrite take_drop in H. cbv zeta in H.
  destruct H as [Hinv' Hres].
  - intros i job Hin. apply elem_of_enumerate in Hin. by eapply Hjobs.
  - done.
  - done.
  - intros Hnil. destruct (Z.to_nat workers) eqn:En; [lia|].
    clearbody jobs. destruct jobs as [|j jobs']; [by rewrite drop_nil|done].
  - destruct (dispatch _ _ _ _ _ w) as [[e|results] w'] eqn:Ed; cbn [fst snd] in *.
    + split; [done|]. right. destruct Hres as (i & job & Hin & Hraise).
      apply elem_of_enumerate in Hin. exists i. split; [|done].
      by eapply lookup_lt_Some.
    + destruct Hres as (Hkeep & Hdone & _). split; [done|].
      assert (Hall : ∀ i, (i < length tasks)%nat →
        ∃ a, out i = Return a ∧ results !! i = Some a ∧ Post i w').
      { intros i Hi. destruct (lookup_lt_is_Some_2 _ _ Hi) as [job Hjob].
        apply (Hdone i job). by apply elem_of_enumerate. }
      destruct (omap_seq_total (λ i, results !! i) (length tasks) 0) as [Hlen Hlook].
      { intros i Hi. destruct (Hall i Hi) as (a & _ & Ha & _). by exists a. }
      split; [done|]. split; [done|].
      intros i Hi. destruct (Hall i Hi) as (a & Hout & Ha & Hp).
      exists a. split; [done|]. split; [|done].
      rewrite Hlook by done. done.
Qed.

End Dispatch.

(** ** One worker *)

Section Serial.

Context {DB : Type} {A : Type}.

(** With one worker the job in flight is always the first one not yet
    completed, whatever [picks] says. *)
Lemma dispatch_one_worker (jobs : list (nat * M (World DB) A)) :
  ∀ fuel picks results w,
  (length jobs ≤ fuel)%nat →
  dispatch fuel picks (take 1 jobs) (drop 1 jobs) results w =
  dispatch fuel [] (take 1 jobs) (drop 1 jobs) results w.
Proof.
  induction jobs as [|[i job] jobs IH]; intros fuel picks results w Hlen.
  { by destruct fuel. }
  destruct fuel as [|fuel]; [simpl in Hlen; lia|].
  cbn [take drop]. rewrite take_0, drop_0, !dispatch_step. cbv zeta.
  cbn [length]. rewrite !Nat.mod_1_r. cbn [nth fst snd delete list_delete app].
  destruct (job w) as [[e|a] w']; [done|].
  rewrite IH by (simpl in Hlen; lia). done.
Qed.

Lemma dispatch_in_order (tasks : list (M (World DB) A)) :
  ∀ k fuel results w,
  (length tasks ≤ fuel)%nat →
  let jobs := imap (λ i x, ((k + i)%nat, x)) tasks in
  let r := dispatch fuel [] (take 1 jobs) (drop 1 jobs) results w in
  match run_serially tasks w with
  | (Raise e, w') => r = (Raise e, w')
  | (Return l, w') =>
      length l = length tasks ∧
      ∃ results', r = (Return results', w') ∧
        (∀ j, (j < length l)%nat → results' !! (k + j)%nat = l !! j) ∧
        (∀ i, (i < k)%nat → results' !! i = results !! i)
  end.
Proof.
  induction tasks as [|task tasks IH]; intros k fuel results w Hlen jobs r.
  { subst r jobs. cbn [run_serially ret imap take drop].
    split; [done|]. exists results. destruct fuel; (split; [done|]).
    all: split; [intros j Hj; simpl in Hj; lia|done]. }
  destruct fuel as [|fuel]; [simpl in Hlen; lia|].
  subst r jobs. cbn [imap take drop]. rewrite take_0, drop_0, dispatch_step.
  cbv zeta. cbn [length hd]. rewrite Nat.mod_1_r.
  cbn [nth fst snd delete list_delete app]. cbn [run_serially].
  rewrite !bind_run. destruct (task w) as [[e|a] w1]; [done|].
  specialize (IH (S k) fuel (<[(k + 0)%nat := a]> results) w1).
  cbv zeta in IH.
  rewrite (imap_ext _ (λ i x, ((k + S i)%nat, x)) tasks) in IH
    by (intros; f_equal; lia).
  change (imap ((λ i x, ((k + i)%nat, x)) ∘ S) tasks)
    with (imap (λ i x, ((k + S i)%nat, x)) tasks).
  rewrite bind_run. cbn [tl].
  destruct (run_serially tasks w1) as [[e|l] w2].
  - apply IH. simpl in Hlen. lia.
  - destruct IH as (Hl & results' & -> & Hin & Hout); [simpl in Hlen; lia|].
    cbn [ret length]. split; [by rewrite Hl|]. exists results'. split; [done|].
    split.
    + intros [|j] Hj.
      * rewrite Hout by lia. apply lookup_insert_eq.
      * replace (k + S j)%nat with (S k + j)%nat by lia. apply Hin. lia.
    + intros i Hi. rewrite Hout by lia. apply lookup_insert_ne. lia.
Qed.

(** No more jobs are in flight than the workers allow. *)
Lemma in_flight_bounded (n : nat) fuel :
  ∀ picks (running queue : list (nat * M (World DB) A)) w,
  (length running ≤ n)%nat →
  Forall (λ l, (length l ≤ n)%nat) (in_flight fuel picks running queue w).
Proof.
  induction fuel as [|fuel IH]; intros picks running queue w Hlen; [constructor|].
  destruct running as [|first running0]; [constructor|].
  cbn [in_flight]. set (running := first :: running0) in *.
  assert (Hp : (hd 0 picks `mod` length running < length running)%nat).
  { apply Nat.mod_upper_bound. subst running. simpl. lia. }
  constructor; [by rewrite length_fmap|].
  destruct ((nth (hd 0 picks `mod` length running)%nat running first).2 w)
    as [[e|a] w']; [constructor|].
  apply IH. rewrite length_app, length_delete by (by apply lookup_lt_is_Some_2).
  rewrite length_take. lia.
Qed.

Lemma Parallel_in_flight_bounded cpu_count n_jobs workers picks
    (tasks : list (M (World DB) A)) w :
  effective_n_jobs cpu_count n_jobs = Return workers →
  Forall (λ l, (length l ≤ Z.to_nat workers)%nat)
    (Parallel_in_flight cpu_count n_jobs picks tasks w).
Proof.
  intros H. unfold Parallel_in_flight. rewrite H. cbv zeta.
  apply in_flight_bounded. rewrite length_take. lia.
Qed.

Lemma Parallel_one_worker cpu_count picks (tasks : list (M (World DB) A)) w :
  Parallel cpu_count 1 picks tasks w = run_serially tasks w.
Proof.
  unfold Parallel. rewrite bind_run.
  change (lift (effective_n_jobs cpu_count 1) w) with (Return 1, w).
  cbv beta iota. change (Z.to_nat 1) with 1%nat. rewrite bind_run.
  rewrite dispatch_one_worker by done.
  pose proof (dispatch_in_order tasks 0 (length (enumerate tasks)) ∅ w) as H.
  cbv zeta in H. cbn [Nat.add] in H. unfold enumerate in *.
  rewrite length_imap in *. specialize (H (Nat.le_refl _)).
  destruct (run_serially tasks w) as [[e|l] w'].
  - by rewrite H.
  - destruct H as (Hl & results' & -> & Hin & _). unfold ret. f_equal. f_equal.
    destruct (omap_seq_total (λ i, results' !! i) (length tasks) 0) as [Hlen Hlook].
    { intros i Hi. rewrite Hin by lia. apply lookup_lt_is_Some_2. lia. }
    apply list_eq_same_length with (length tasks); [done|done|].
    intros i x y Hi Hx Hy. rewrite Hlook in Hx by lia. cbn [Nat.add] in Hx.
    pose proof (Hin i ltac:(lia)) as Hin'. cbn [Nat.add] in Hin'. congruence.
Qed.

End Serial.

(** ** The whole search *)

Section Search.

Context {DB : Type} (eng : Engine DB) (cpu_count : Z).
Variables (database schema source_schema source : string).
Variables (top_k top_k_token : Z).
Variables (config : option record) (filters : option string).

#[local] Abbreviation retrieve :=
  (retrieve eng database schema source_schema source top_k top_k_token
     config filters).
#[local] Abbreviation batch_outcome :=
  (batch_outcome eng database schema source_schema source top_k top_k_token
     config filters).
#[local] Abbreviation batch_out :=
  (batch_out eng database schema source_schema source top_k top_k_token
     config filters).
#[local] Abbreviation run_search queries batch_size n_jobs picks :=
  (search eng cpu_count database schema source_schema source queries
     batch_size top_k top_k_token n_jobs config filters picks).
#[local] Abbreviation run_retrieval queries batch_size n_jobs picks :=
  (retrieval_phase eng cpu_count database schema source_schema source queries
     batch_size top_k top_k_token n_jobs config filters picks).

Lemma search_run queries batch_size n_jobs picks (w : World DB) :
  run_search queries batch_size n_jobs picks w =
  let Q := as_query_list queries in
  match select_settings eng (db w) database schema config with
  | Raise e => (Raise e, add_log EvSelectSettings w)
  | Return [] => (Raise IndexError, add_log EvSelectSettings w)
  | Return (settings :: _) =>
      match insert_queries eng (db w) database schema Q config with
      | Raise e => (Raise e, staged Q w)
      | Return d1 =>
          match create_queries_index eng d1 database schema settings config with
          | Raise e => (Raise e, add_log EvCreateQueriesIndex (set_db d1 (staged Q w)))
          | Return d2 => run_retrieval Q batch_size n_jobs picks (indexed Q d1 d2 w)
          end
      end
  end.
Proof.
  unfold search, retrieval_phase. cbv zeta.
  unfold bind at 1. unfold _select_settings.
  destruct (select_settings eng (db w) database schema config) as [e|[|settings rows]];
    [done|done|].
  unfold bind at 1. unfold lift, first_row.
  unfold bind at 1. unfold write_table.
  unfold bind at 1. unfold _insert_queries.
  unfold bind at 1. unfold read_parquet. cbn [fs add_log set_fs].
  rewrite lookup_insert_eq. cbn [db add_log set_fs].
  fold (staged (as_query_list queries) w).
  destruct (insert_queries eng (db w) database schema (as_query_list queries) config)
    as [e|d1]; [done|].
  unfold bind at 1. unfold _create_queries_index. cbn [db add_log set_db].
  destruct (create_queries_index eng d1 database schema settings config)
    as [e|d2]; done.
Qed.

Lemma retrieval_inv_refl (w : World DB) : retrieval_inv w w.
Proof.
  split; [done|]. split; [|done]. exists []. by rewrite app_nil_r.
Qed.

Lemma _search_job_spec w0 batches k b :
  batches !! k = Some b →
  job_spec (retrieval_inv w0) batch_file_gone (batch_out (db w0) batches) k
    (_search eng database schema source_schema source b top_k top_k_token k
       config filters).
Proof.
  intros Hb w (Hdb & (tail & Hlog & Htail) & Hfs).
  rewrite _search_run. unfold batch_out. rewrite Hb.
  unfold batch_outcome. rewrite Hdb.
  destruct (retrieve (db w0) b) as [e|matchs];
    cbn [fst snd].
  - split; [done|]. split; [|done].
    split; [done|]. split.
    + exists (tail ++ [EvWrite (parquet_name k) b; EvSearch (parquet_name k) b]).
      split.
      * cbn [log searched add_log set_fs]. rewrite Hlog, <- !app_assoc. done.
      * apply Forall_app. split; [done|].
        repeat first [apply Forall_nil_2 | apply Forall_cons_2];
          exists k, b; tauto.
    + intros name Hname. cbn [fs searched add_log set_fs].
      rewrite lookup_insert_ne by (intros H; by apply (Hname k)). by apply Hfs.
  - split; [done|]. split.
    + split; [done|]. split.
      * exists (tail ++ [EvWrite (parquet_name k) b; EvSearch (parquet_name k) b;
                         EvRemove (parquet_name k)]).
        split.
        -- cbn [log cleaned searched add_log set_fs]. rewrite Hlog, <- !app_assoc. done.
        -- apply Forall_app. split; [done|].
           repeat first [apply Forall_nil_2 | apply Forall_cons_2];
          exists k, b; tauto.
      * intros name Hname. cbn [fs cleaned searched add_log set_fs].
        rewrite lookup_delete_ne by (intros H; by apply (Hname k)). by apply Hfs.
    + intros a _. unfold batch_file_gone. cbn [fs cleaned searched add_log set_fs].
      split; [apply lookup_delete_eq|].
      intros j Hj. rewrite lookup_delete. by case_decide.
Qed.

Lemma retrieval_phase_spec Q batch_size n_jobs picks (w : World DB) :
  let batches := batchify Q batch_size in
  let r := run_retrieval Q batch_size n_jobs picks w in
  retrieval_inv w r.2 ∧
  match r.1 with
  | Return R =>
      ∃ outs, R = concat outs ∧
        Forall2 (λ b slots, batch_outcome (db w) b = Return slots) batches outs ∧
        ∀ k, (k < length batches)%nat → batch_file_gone k r.2
  | Raise e =>
      effective_n_jobs cpu_count
        (if Z.of_nat (length Q) <=? batch_size then 1 else n_jobs) = Raise e ∨
      ∃ k b, batches !! k = Some b ∧ batch_outcome (db w) b = Raise e
  end.
Proof.
  intros batches r. subst r. unfold retrieval_phase, batch_jobs. fold batches.
  set (tasks := map _ (enumerate batches)).
  assert (Hlen : length tasks = length batches).
  { subst tasks. unfold enumerate. by rewrite length_map, length_imap. }
  assert (Htask : ∀ k job, tasks !! k = Some job →
    ∃ b, batches !! k = Some b ∧
      job = _search eng database schema source_schema source b top_k top_k_token
              k config filters).
  { intros k job Hk. subst tasks. unfold enumerate in Hk.
    rewrite list_lookup_fmap, list_lookup_imap in Hk.
    destruct (batches !! k) as [b|] eqn:E; [|done].
    cbn in Hk. injection Hk as <-. by exists b. }
  pose proof (Parallel_spec (retrieval_inv w) batch_file_gone
    (batch_out (db w) batches) cpu_count
    (if Z.of_nat (length Q) <=? batch_size then 1 else n_jobs) picks tasks w) as H.
  cbv zeta in H. destruct H as [Hinv Hres].
  { intros k job Hk. destruct (Htask _ _ Hk) as (b & Hb & ->).
    by apply _search_job_spec. }
  { apply retrieval_inv_refl. }
  rewrite !bind_run.
  destruct (Parallel _ _ _ tasks w) as [[e|outs] w'] eqn:EP; cbn [fst snd ret] in *.
  - split; [done|]. destruct Hres as [Hres|(k & Hk & Hres)]; [by left|right].
    unfold batch_out in Hres. rewrite Hlen in Hk.
    destruct (lookup_lt_is_Some_2 _ _ Hk) as [b Hb]. rewrite Hb in Hres.
    by exists k, b.
  - split; [done|]. destruct Hres as (HlenR & _ & Hall).
    exists outs. split; [done|]. split.
    + apply Forall2_same_length_lookup. split; [congruence|].
      intros k b slots Hb Hs.
      destruct (Hall k) as (a & Ha & Ha' & _).
      { rewrite Hlen. by eapply lookup_lt_Some. }
      unfold batch_out in Ha. rewrite Hb in Ha. congruence.
    + intros k Hk. destruct (Hall k) as (a & _ & _ & Hgone); [lia|done].
Qed.

Lemma search_Return_inv queries batch_size n_jobs picks (w w' : World DB) R :
  run_search queries batch_size n_jobs picks w = (Return R, w') →
  ∃ settings rest d1 d2,
    select_settings eng (db w) database schema config = Return (settings :: rest) ∧
    insert_queries eng (db w) database schema (as_query_list queries) config
      = Return d1 ∧
    create_queries_index eng d1 database schema settings config = Return d2 ∧
    run_retrieval (as_query_list queries) batch_size n_jobs picks
      (indexed (as_query_list queries) d1 d2 w) = (Return R, w').
Proof.
  rewrite search_run. cbv zeta.
  destruct (select_settings eng (db w) database schema config)
    as [e|[|settings rest]]; [done|done|].
  destruct (insert_queries eng (db w) database schema _ config) as [e|d1]; [done|].
  destruct (create_queries_index eng d1 database schema settings config)
    as [e|d2] eqn:E; [done|].
  intros H. by exists settings, rest, d1, d2.
Qed.

(** The shape of every result of [search]: the slots of the batches, each
    computed from the engine's answer on the final database, joined in
    batch order. *)
Lemma search_Return_outs queries batch_size n_jobs picks (w w' : World DB) R :
  run_search queries batch_size n_jobs picks w = (Return R, w') →
  ∃ outs, R = concat outs ∧
    Forall2 (λ b slots, ∃ matchs, retrieve (db w') b = Return matchs ∧
                          slots = slots_of matchs b)
      (batchify (as_query_list queries) batch_size) outs.
Proof.
  intros H. apply search_Return_inv in H as (settings & rest & d1 & d2 & _ & _ & _ & H).
  pose proof (retrieval_phase_spec (as_query_list queries) batch_size n_jobs picks
    (indexed (as_query_list queries) d1 d2 w)) as Hspec.
  cbv zeta in Hspec. rewrite H in Hspec. cbn [fst snd] in Hspec.
  destruct Hspec as [(Hdb & _) (outs & -> & Hall & _)].
  exists outs. split; [done|]. rewrite Hdb.
  eapply Forall2_impl; [exact Hall|]. intros b slots Hb.
  by apply batch_outcome_Return.
Qed.

Lemma slots_of_lens (d : DB) (batches : list (list string)) outs :
  Forall2 (λ b slots, ∃ matchs, retrieve d b = Return matchs ∧
                        slots = slots_of matchs b) batches outs →
  Forall2 (λ (b : list string) (s : list (list record)), length s = length b)
    batches outs.
Proof.
  intros Hall. eapply Forall2_impl; [exact Hall|]. intros b s (matchs & _ & ->).
  apply length_fmap.
Qed.

Lemma search_Return_length queries batch_size n_jobs picks (w w' : World DB) R :
  0 < batch_size →
  run_search queries batch_size n_jobs picks w = (Return R, w') →
  length R = length (as_query_list queries).
Proof.
  intros Hbs H.
  pose proof (search_Return_outs _ _ _ _ _ _ _ H) as (outs & -> & Hall).
  rewrite (concat_length_Forall2 _ _ (slots_of_lens _ _ _ Hall)).
  unfold batchify. rewrite chunks_concat; [done|lia|done].
Qed.

Lemma search_Return_lookup queries batch_size n_jobs picks (w w' : World DB) R
    i query :
  0 < batch_size →
  run_search queries batch_size n_jobs picks w = (Return R, w') →
  as_query_list queries !! i = Some query →
  ∃ batch matchs,
    batchify (as_query_list queries) batch_size
      !! (i `div` Z.to_nat batch_size)%nat = Some batch ∧
    batch !! (i `mod` Z.to_nat batch_size)%nat = Some query ∧
    retrieve (db w') batch = Return matchs ∧
    R !! i = Some (untag <$> filter (tagged query) matchs).
Proof.
  intros Hbs H Hi. set (Q := as_query_list queries) in *.
  set (n := Z.to_nat batch_size).
  assert (Hn : (0 < n)%nat) by (subst n; lia).
  pose proof (search_Return_outs _ _ _ _ _ _ _ H) as (outs & -> & Hall).
  fold Q in Hall.
  pose proof (slots_of_lens _ _ _ Hall) as Hlens.
  destruct (chunks_lookup (length Q) n Q outs i Hn (Nat.le_refl _) Hlens)
    as (b & s & Hb & Hs & Hbi & Hc); [by eapply lookup_lt_Some|].
  destruct (Forall2_lookup_lr _ _ _ _ _ _ Hall Hb Hs) as (matchs & Hm & ->).
  exists b, matchs. rewrite Hbi, Hi in *. split; [done|]. split; [done|].
  split; [done|]. rewrite Hc. by apply slots_of_lookup.
Qed.

Lemma Parallel_n_jobs_Raise {A} n_jobs picks (tasks : list (M (World DB) A)) w e :
  effective_n_jobs cpu_count n_jobs = Raise e →
  Parallel cpu_count n_jobs picks tasks w = (Raise e, w).
Proof. intros H. unfold Parallel. rewrite bind_run. unfold lift. by rewrite H. Qed.

(** A successful search returns the same result for every completion order. *)
Lemma search_Return_any_order queries batch_size n_jobs picks picks'
    (w w' : World DB) R :
  run_search queries batch_size n_jobs picks w = (Return R, w') →
  (run_search queries batch_size n_jobs picks' w).1 = Return R.
Proof.
  intros H. set (Q := as_query_list queries).
  apply search_Return_inv in H as (settings & rest & d1 & d2 & H1 & H2 & H3 & H).
  rewrite search_run. cbv zeta. fold Q in H, H2 |- *. rewrite H1, H2, H3.
  pose proof (retrieval_phase_spec Q batch_size n_jobs picks
    (indexed Q d1 d2 w)) as Hspec.
  pose proof (retrieval_phase_spec Q batch_size n_jobs picks'
    (indexed Q d1 d2 w)) as Hspec'.
  cbv zeta in Hspec, Hspec'. rewrite H in Hspec. cbn [fst snd] in Hspec.
  destruct Hspec as [_ (outs0 & Houts0 & Hall0 & _)].
  destruct Hspec' as [_ Hres].
  destruct (run_retrieval Q batch_size n_jobs picks' (indexed Q d1 d2 w)).1
    as [e|R'].
  - exfalso. destruct Hres as [Hjobs|(k & b & Hb & Hraise)].
    + revert H. unfold retrieval_phase. rewrite bind_run.
      by rewrite (Parallel_n_jobs_Raise _ _ _ _ _ Hjobs).
    + destruct (Forall2_lookup_l _ _ _ _ _ Hall0 Hb) as (s & _ & Hret).
      congruence.
  - destruct Hres as (outs' & -> & Hall' & _). rewrite Houts0. f_equal. f_equal.
    apply list_eq_same_length with (length (batchify Q batch_size)).
    + symmetry. by eapply Forall2_length.
    + symmetry. by eapply Forall2_length.
    + intros k s' s Hk Hs' Hs.
      destruct (lookup_lt_is_Some_2 _ _ Hk) as [b Hb].
      pose proof (Forall2_lookup_lr _ _ _ _ _ _ Hall' Hb Hs').
      pose proof (Forall2_lookup_lr _ _ _ _ _ _ Hall0 Hb Hs).
      congruence.
Qed.

(** When the index is built and the engine answers every batch with
    tagged records, [search] returns. *)
Lemma search_returns queries batch_size n_jobs picks (w : World DB)
    settings rest d1 d2 workers :
  let Q := as_query_list queries in
  select_settings eng (db w) database schema config = Return (settings :: rest) →
  insert_queries eng (db w) database schema Q config = Return d1 →
  create_queries_index eng d1 database schema settings config = Return d2 →
  effective_n_jobs cpu_count
    (if Z.of_nat (length Q) <=? batch_size then 1 else n_jobs) = Return workers →
  (∀ batch, batch ∈ batchify Q batch_size →
     ∃ matchs, retrieve d2 batch = Return matchs ∧
       Forall (λ m : record, is_Some (m !! "_query")) matchs) →
  ∃ R w', run_search queries batch_size n_jobs picks w = (Return R, w').
Proof.
  intros Q H1 H2 H3 Hjobs Hall. rewrite search_run. cbv zeta. fold Q.
  rewrite H1, H2, H3.
  pose proof (retrieval_phase_spec Q batch_size n_jobs picks
    (indexed Q d1 d2 w)) as [_ Hres].
  change (db (indexed Q d1 d2 w)) with d2 in Hres.
  destruct (run_retrieval Q batch_size n_jobs picks (indexed Q d1 d2 w))
    as [[e|R] w'] eqn:E; cbn [fst] in Hres; [exfalso|by exists R, w'].
  destruct Hres as [Hraise|(k & b & Hb & Hraise)]; [congruence|].
  destruct (Hall b) as (matchs & Hm & Htags); [by eapply list_elem_of_lookup_2|].
  unfold batch_outcome in Hraise. rewrite Hm, aggregate_total in Hraise; done.
Qed.

(** C1: [search] returns exactly one slot per query, slot [i] holding the
    result list of [Q[i]]: the records that the engine, asked about the
    batch containing position [i], tagged with [Q[i]].  The result is the
    same whatever the order in which the batches complete.  It is returned
    whenever the index is built and the engine answers every batch. *)
Theorem search_one_slot_per_query_in_order queries batch_size n_jobs picks
    (w : World DB) :
  0 < batch_size →
  let Q := as_query_list queries in
  let n := Z.to_nat batch_size in
  (∀ settings rest d1 d2 workers,
     select_settings eng (db w) database schema config
       = Return (settings :: rest) →
     insert_queries eng (db w) database schema Q config = Return d1 →
     create_queries_index eng d1 database schema settings config = Return d2 →
     effective_n_jobs cpu_count
       (if Z.of_nat (length Q) <=? batch_size then 1 else n_jobs)
       = Return workers →
     (∀ batch, batch ∈ batchify Q batch_size →
        ∃ matchs, retrieve d2 batch = Return matchs ∧
          Forall (λ m : record, is_Some (m !! "_query")) matchs) →
     ∃ R w', run_search queries batch_size n_jobs picks w = (Return R, w')) ∧
  (∀ R w', run_search queries batch_size n_jobs picks w = (Return R, w') →
     length R = length Q ∧
     (∀ i query, Q !! i = Some query →
        ∃ batch matchs,
          batchify Q batch_size !! (i `div` n)%nat = Some batch ∧
          batch !! (i `mod` n)%nat = Some query ∧
          retrieve (db w') batch = Return matchs ∧
          R !! i = Some (untag <$> filter (tagged query) matchs)) ∧
     (∀ picks', (run_search queries batch_size n_jobs picks' w).1 = Return R)).
Proof.
  intros Hbs Q n. split.
  - intros settings rest d1 d2 workers. by apply search_returns.
  - intros R w' H. split; [|split].
    + by eapply search_Return_length.
    + intros i query Hi. by eapply search_Return_lookup.
    + intros picks'. by eapply search_Return_any_order.
Qed.

(** C3: two positions holding the same query text receive equal slots,
    also when they fall in different batches, provided the engine answers a
    query independently of the rest of its batch. *)
Theorem search_equal_text_equal_slots queries batch_size n_jobs picks
    (w w' : World DB) R i j query :
  0 < batch_size →
  retrieve_per_query eng →
  run_search queries batch_size n_jobs picks w = (Return R, w') →
  as_query_list queries !! i = Some query →
  as_query_list queries !! j = Some query →
  ∃ slot, R !! i = Some slot ∧ R !! j = Some slot.
Proof.
  intros Hbs Hper H Hi Hj.
  destruct (search_Return_lookup _ _ _ _ _ _ _ _ _ Hbs H Hi)
    as (bi & mi & _ & Hqi & Hmi & Hri).
  destruct (search_Return_lookup _ _ _ _ _ _ _ _ _ Hbs H Hj)
    as (bj & mj & _ & Hqj & Hmj & Hrj).
  exists (untag <$> filter (tagged query) mi). split; [done|].
  rewrite Hrj. do 2 f_equal. symmetry.
  eapply Hper; [exact Hmi|exact Hmj| |]; by eapply list_elem_of_lookup_2.
Qed.

(** C8: no slot holds more than [top_k] records, the engine returning at
    most [top_k] records per query. *)
Theorem search_slot_at_most_top_k queries batch_size n_jobs picks
    (w w' : World DB) R i slot :
  0 ≤ top_k →
  retrieve_up_to_top_k eng →
  run_search queries batch_size n_jobs picks w = (Return R, w') →
  R !! i = Some slot →
  Z.of_nat (length slot) ≤ top_k.
Proof.
  intros Hk Hbound H Hi.
  pose proof (search_Return_outs _ _ _ _ _ _ _ H) as (outs & -> & Hall).
  apply list_elem_of_lookup_2, elem_of_concat in Hi as (slots & Hslot & Hslots).
  apply list_elem_of_lookup in Hslots as [k Hslots].
  destruct (Forall2_lookup_r _ _ _ _ _ Hall Hslots) as (b & _ & matchs & Hm & ->).
  apply list_elem_of_fmap in Hslot as (q & -> & _).
  rewrite length_fmap. pose proof (Hbound _ _ _ _ _ _ _ _ _ _ _ Hm q). lia.
Qed.

(** C9: a single string is searched as the one-element query set; the
    result is one slot of at most [top_k] records, each with an [id] and a
    [score] field, the engine returning such records. *)
Theorem search_single_string s batch_size n_jobs picks (w w' : World DB) R :
  0 < batch_size →
  0 ≤ top_k →
  retrieve_up_to_top_k eng →
  retrieve_id_score eng →
  run_search (QStr s) batch_size n_jobs picks w = (Return R, w') →
  as_query_list (QStr s) = [s] ∧
  run_search (QStr s) batch_size n_jobs picks w =
    run_search (QList [s]) batch_size n_jobs picks w ∧
  ∃ slot, R = [slot] ∧
    Z.of_nat (length slot) ≤ top_k ∧
    ∀ r : record, r ∈ slot → is_Some (r !! "id") ∧ is_Some (r !! "score").
Proof.
  intros Hbs Hk Hbound Hfields H. split; [done|]. split; [done|].
  pose proof (search_Return_length _ _ _ _ _ _ _ Hbs H) as Hlen.
  destruct (search_Return_lookup _ _ _ _ _ _ _ 0%nat s Hbs H eq_refl)
    as (b & matchs & _ & _ & Hm & HR).
  destruct R as [|slot [|? ?]]; [done| |done].
  injection HR as ->. exists (untag <$> filter (tagged s) matchs).
  split; [done|]. split.
  - rewrite length_fmap. pose proof (Hbound _ _ _ _ _ _ _ _ _ _ _ Hm s). lia.
  - intros r (m & -> & Hin)%list_elem_of_fmap.
    apply list_elem_of_filter in Hin as [_ Hin].
    destruct (Hfields _ _ _ _ _ _ _ _ _ _ _ Hm m Hin) as [Hid Hscore].
    destruct (untag_fields m) as [_ Hother].
    by rewrite !Hother.
Qed.

(** C10: a query whose text tags no record returned for its batch gets the
    empty list at its position; the empty query set gives the empty
    result; and a batch whose records all carry a tag never raises,
    whichever of its queries are answered. *)
Theorem search_untagged_query_gets_empty_slot queries batch_size n_jobs picks
    (w w' : World DB) R :
  run_search queries batch_size n_jobs picks w = (Return R, w') →
  let Q := as_query_list queries in
  (Q = [] → R = []) ∧
  (0 < batch_size →
   ∀ i query, Q !! i = Some query →
     ∃ batch matchs,
       batchify Q batch_size !! (i `div` Z.to_nat batch_size)%nat = Some batch ∧
       retrieve (db w') batch = Return matchs ∧
       ((∀ m, m ∈ matchs → ¬ tagged query m) → R !! i = Some [])) ∧
  (∀ batch index (w1 : World DB) matchs,
     retrieve (db w1) batch = Return matchs →
     Forall (λ m : record, is_Some (m !! "_query")) matchs →
     (_search eng database schema source_schema source batch top_k top_k_token
        index config filters w1).1 = Return (slots_of matchs batch)).
Proof.
  intros H Q. split; [|split].
  3: { intros batch index w1 matchs Hm Htags.
       rewrite _search_run, Hm. cbn [fst]. by apply aggregate_total. }
  - intros HQ.
    pose proof (search_Return_outs _ _ _ _ _ _ _ H) as (outs & -> & Hall).
    fold Q in Hall. rewrite HQ in Hall. apply Forall2_nil_inv_l in Hall.
    by subst outs.
  - intros Hbs i query Hi.
    destruct (search_Return_lookup _ _ _ _ _ _ _ _ _ Hbs H Hi)
      as (b & matchs & Hb & _ & Hm & HR).
    exists b, matchs. split; [done|]. split; [done|].
    intros Hnone. rewrite HR. f_equal. by rewrite filter_none.
Qed.

(** C4: a failure of the settings lookup, of the insert, of the index
    build or of the retrieval of any batch makes [search] raise; the
    exception is the one raised by the failing step, unchanged. *)
Theorem search_fails_fast queries batch_size n_jobs picks (w : World DB) :
  let Q := as_query_list queries in
  let r := run_search queries batch_size n_jobs picks w in
  (∀ e, select_settings eng (db w) database schema config = Raise e →
        r.1 = Raise e) ∧
  (select_settings eng (db w) database schema config = Return [] →
        r.1 = Raise IndexError) ∧
  (∀ settings rest,
     select_settings eng (db w) database schema config
       = Return (settings :: rest) →
     (∀ e, insert_queries eng (db w) database schema Q config = Raise e →
           r.1 = Raise e) ∧
     (∀ d1, insert_queries eng (db w) database schema Q config = Return d1 →
        (∀ e, create_queries_index eng d1 database schema settings config
                = Raise e → r.1 = Raise e) ∧
        (∀ d2 k batch e,
           create_queries_index eng d1 database schema settings config
             = Return d2 →
           batchify Q batch_size !! k = Some batch →
           retrieve d2 batch = Raise e →
           ∃ e', r.1 = Raise e' ∧
             (effective_n_jobs cpu_count
                (if Z.of_nat (length Q) <=? batch_size then 1 else n_jobs)
                = Raise e' ∨
              ∃ k' batch', batchify Q batch_size !! k' = Some batch' ∧
                           batch_outcome d2 batch' = Raise e')))).
Proof.
  intros Q r. subst r. rewrite search_run. cbv zeta. fold Q.
  split; [|split].
  - by intros e ->.
  - by intros ->.
  - intros settings rest ->. split; [by intros e ->|].
    intros d1 ->. split; [by intros e ->|].
    intros d2 k batch e -> Hk He.
    pose proof (retrieval_phase_spec Q batch_size n_jobs picks
      (indexed Q d1 d2 w)) as Hspec.
    cbv zeta in Hspec. destruct Hspec as [_ Hres].
    change (db (indexed Q d1 d2 w)) with d2 in Hres.
    destruct (run_retrieval Q batch_size n_jobs picks (indexed Q d1 d2 w)).1
      as [e'|R].
    + by exists e'.
    + exfalso. destruct Hres as (outs & _ & Hall & _).
      destruct (Forall2_lookup_l _ _ _ _ _ Hall Hk) as (slots & _ & Hret).
      unfold batch_outcome in Hret. by rewrite He in Hret.
Qed.

(** C5: when the query set fits in one batch the jobs run one after the
    other in input order; otherwise [Parallel] is given [n_jobs], where
    [-1] stands for every processor and a positive number for itself, and
    never has more jobs in flight than that many workers. *)
Theorem search_dispatch_policy queries batch_size n_jobs picks (w : World DB)
    settings rest d1 d2 :
  let Q := as_query_list queries in
  let jobs := batch_jobs eng database schema source_schema source Q batch_size
                top_k top_k_token config filters in
  select_settings eng (db w) database schema config = Return (settings :: rest) →
  insert_queries eng (db w) database schema Q config = Return d1 →
  create_queries_index eng d1 database schema settings config = Return d2 →
  (Z.of_nat (length Q) ≤ batch_size →
     run_search queries batch_size n_jobs picks w =
     (let! matchs := run_serially jobs in ret (concat matchs))
       (indexed Q d1 d2 w)) ∧
  (batch_size < Z.of_nat (length Q) →
     run_search queries batch_size n_jobs picks w =
     (let! matchs := Parallel cpu_count n_jobs picks jobs in ret (concat matchs))
       (indexed Q d1 d2 w)) ∧
  (∀ workers, effective_n_jobs cpu_count n_jobs = Return workers →
     Forall (λ l, (length l ≤ Z.to_nat workers)%nat)
       (Parallel_in_flight cpu_count n_jobs picks jobs (indexed Q d1 d2 w))) ∧
  (1 ≤ cpu_count → effective_n_jobs cpu_count (-1) = Return cpu_count) ∧
  (0 < n_jobs → effective_n_jobs cpu_count n_jobs = Return n_jobs).
Proof.
  intros Q jobs H1 H2 H3. rewrite search_run. cbv zeta. fold Q.
  rewrite H1, H2, H3. unfold retrieval_phase. fold jobs.
  split; [|split; [|split; [|split]]].
  - intros Hfit. rewrite (proj2 (Z.leb_le _ _) Hfit).
    rewrite !bind_run. by rewrite Parallel_one_worker.
  - intros Hbig. by rewrite (proj2 (Z.leb_gt _ _) Hbig).
  - intros workers. apply Parallel_in_flight_bounded.
  - intros Hcpu. unfold effective_n_jobs. cbn [Z.eqb Z.ltb Z.compare].
    f_equal. lia.
  - intros Hpos. unfold effective_n_jobs.
    destruct (Z.eqb_spec n_jobs 0); [lia|].
    destruct (Z.ltb_spec n_jobs 0); [lia|done].
Qed.

Lemma parquet_name_not_staged k : parquet_name k ≠ "_queries.parquet".
Proof.
  unfold parquet_name. intros H.
  cbv beta iota zeta delta [String.append] in H. discriminate H.
Qed.

Lemma batch_event_not_index_build e :
  batch_event e → index_build_event e = false.
Proof.
  intros (k & rows & [->|[->| ->]]); cbn [index_build_event]; [|done|done].
  apply bool_decide_eq_false_2, parquet_name_not_staged.
Qed.

Lemma filter_batch_events tail :
  Forall batch_event tail → filter index_build_event tail = [].
Proof.
  intros H. apply filter_none. intros e He Hb.
  rewrite Forall_forall in H.
  rewrite (batch_event_not_index_build e) in Hb by (by apply H). done.
Qed.

(** C6: a call stages the whole query set, loads it and builds the index
    once, before any batch is retrieved; the retrieval phase leaves the
    database as the index build made it. *)
Theorem search_indexes_once_before_retrieval queries batch_size n_jobs picks
    (w : World DB) :
  let Q := as_query_list queries in
  let r := run_search queries batch_size n_jobs picks w in
  (∃ k tail,
     log r.2 = log w ++ take k (index_events Q) ++ tail ∧
     Forall batch_event tail ∧
     (tail ≠ [] → k = 4%nat)) ∧
  (∀ R, r.1 = Return R →
     ∃ settings rest d1 d2 tail,
       select_settings eng (db w) database schema config
         = Return (settings :: rest) ∧
       insert_queries eng (db w) database schema Q config = Return d1 ∧
       create_queries_index eng d1 database schema settings config
         = Return d2 ∧
       log r.2 = log w ++ index_events Q ++ tail ∧
       Forall batch_event tail ∧
       filter index_build_event (index_events Q ++ tail) =
         [EvWrite "_queries.parquet" Q;
          EvInsertQueries "_queries.parquet" Q;
          EvCreateQueriesIndex] ∧
       db r.2 = d2).
Proof.
  intros Q r. subst r. rewrite search_run. cbv zeta. fold Q.
  destruct (select_settings eng (db w) database schema config)
    as [e|[|settings rest]] eqn:E1.
  1,2: split; [by exists 1%nat, []|done].
  destruct (insert_queries eng (db w) database schema Q config) as [e|d1] eqn:E2.
  { split; [|done]. exists 3%nat, []. split; [|done].
    cbn [snd log staged add_log set_fs take index_events app].
    by rewrite <- !app_assoc. }
  destruct (create_queries_index eng d1 database schema settings config)
    as [e|d2] eqn:E3.
  { split; [|done]. exists 4%nat, []. split; [|done].
    cbn [snd log staged add_log set_fs set_db take index_events app].
    by rewrite <- !app_assoc. }
  pose proof (retrieval_phase_spec Q batch_size n_jobs picks
    (indexed Q d1 d2 w)) as [(Hdb & (tail & Hlog & Htail) & _) _].
  assert (Hlog' : log (run_retrieval Q batch_size n_jobs picks
                         (indexed Q d1 d2 w)).2 =
                  log w ++ index_events Q ++ tail).
  { rewrite Hlog. cbn [log indexed staged add_log set_fs set_db index_events].
    by rewrite <- !app_assoc. }
  split.
  - exists 4%nat, tail. split; [exact Hlog'|]. by split.
  - intros R _. exists settings, rest, d1, d2, tail.
    do 3 (split; [first [reflexivity|eassumption]|]).
    split; [exact Hlog'|]. split; [exact Htail|].
    split; [|exact Hdb].
    rewrite filter_app, (filter_batch_events _ Htail), app_nil_r.
    unfold index_events. rewrite !filter_cons, filter_nil. done.
Qed.

(** A batch removes its file once its retrieval has returned, and leaves
    it when the retrieval raises. *)
Lemma _search_file queries index (w : World DB) :
  let r := _search eng database schema source_schema source queries top_k
             top_k_token index config filters w in
  match retrieve (db w) queries with
  | Return _ => fs r.2 !! parquet_name index = None
  | Raise _ => fs r.2 !! parquet_name index = Some queries
  end.
Proof.
  cbv zeta. rewrite _search_run.
  destruct (retrieve (db w) queries); cbn [snd fs cleaned searched add_log set_fs].
  - apply lookup_insert_eq.
  - apply lookup_delete_eq.
Qed.

(** C2, amended: a batch deletes its parquet file as soon as its retrieval
    call returns, and not when that call raises; hence no per-batch file
    of a call that returns a result is left. *)
Theorem search_removes_batch_files queries batch_size n_jobs picks
    (w w' : World DB) R :
  run_search queries batch_size n_jobs picks w = (Return R, w') →
  (∀ k, (k < length (batchify (as_query_list queries) batch_size))%nat →
        fs w' !! parquet_name k = None) ∧
  (∀ batch index (w1 : World DB),
     let r := _search eng database schema source_schema source batch top_k
                top_k_token index config filters w1 in
     match retrieve (db w1) batch with
     | Return _ => fs r.2 !! parquet_name index = None
     | Raise _ => fs r.2 !! parquet_name index = Some batch
     end).
Proof.
  intros H. split; [|intros; apply _search_file].
  apply search_Return_inv in H as (settings & rest & d1 & d2 & _ & _ & _ & H).
  pose proof (retrieval_phase_spec (as_query_list queries) batch_size n_jobs picks
    (indexed (as_query_list queries) d1 d2 w)) as Hspec.
  cbv zeta in Hspec. rewrite H in Hspec. cbn [fst snd] in Hspec.
  destruct Hspec as [_ (outs & _ & _ & Hgone)]. exact Hgone.
Qed.

End Search.

(** ** The example engine meets the contract *)

Module ToyFacts.
Import Toy.

Lemma toy_row_tagged q x : tagged q (toy_row x) ↔ x = q.
Proof.
  unfold tagged, toy_row. rewrite lookup_insert_eq. split; congruence.
Qed.

Lemma toy_filter_tagged q (l : list string) :
  NoDup l →
  filter (tagged q) (toy_row <$> l) = if decide (q ∈ l) then [toy_row q] else [].
Proof.
  induction 1 as [|x l Hx Hl IH]; [done|].
  rewrite fmap_cons, filter_cons, IH.
  destruct (decide (tagged q (toy_row x))) as [Ht|Ht].
  - apply toy_row_tagged in Ht. subst x.
    destruct (decide (q ∈ l)) as [?|_]; [done|].
    destruct (decide (q ∈ q :: l)) as [_|Hn]; [done|].
    exfalso. apply Hn, elem_of_cons. by left.
  - assert (x ≠ q) by (intros ->; by apply Ht, toy_row_tagged).
    destruct (decide (q ∈ l)) as [Hq|Hq];
      destruct (decide (q ∈ x :: l)) as [Hin|Hn]; try done.
    + exfalso. apply Hn, elem_of_cons. by right.
    + exfalso. apply elem_of_cons in Hin as [->|?]; done.
Qed.

Lemma toy_retrieve database schema source_schema source top_k top_k_token
    config filters d rows :
  retrieve engine database schema source_schema source top_k top_k_token
    config filters d rows =
  toy_search d database schema source_schema source top_k top_k_token rows
    filters config.
Proof. unfold retrieve. by destruct filters. Qed.

Lemma toy_filter_answer top_k q d database schema source_schema source
    top_k_token rows filters config matchs :
  toy_search d database schema source_schema source top_k top_k_token rows
    filters config = Return matchs →
  filter (tagged q) matchs =
  if decide (0 < top_k ∧ q ∈ rows ∧ q ≠ "miss") then [toy_row q] else [].
Proof.
  unfold toy_search. case_bool_decide; [done|].
  destruct (Z.leb_spec top_k 0); intros [= <-].
  - rewrite decide_False; [done|]. lia.
  - rewrite toy_filter_tagged by apply NoDup_remove_dups.
    apply decide_ext. rewrite elem_of_remove_dups, list_elem_of_filter. tauto.
Qed.

Lemma up_to_top_k : retrieve_up_to_top_k engine.
Proof.
  intros database schema source_schema source top_k top_k_token config filters
    d rows matchs H query. rewrite toy_retrieve in H.
  rewrite (toy_filter_answer _ query _ _ _ _ _ _ _ _ _ _ H).
  case_decide; simpl; lia.
Qed.

Lemma per_query : retrieve_per_query engine.
Proof.
  intros database schema source_schema source top_k top_k_token config filters
    d rows1 rows2 matchs1 matchs2 query H1 H2 Hq1 Hq2.
  rewrite toy_retrieve in H1, H2.
  rewrite (toy_filter_answer _ query _ _ _ _ _ _ _ _ _ _ H1).
  rewrite (toy_filter_answer _ query _ _ _ _ _ _ _ _ _ _ H2).
  apply decide_ext. tauto.
Qed.

Lemma id_score : retrieve_id_score engine.
Proof.
  intros database schema source_schema source top_k top_k_token config filters
    d rows matchs H m Hm. rewrite toy_retrieve in H.
  assert (Hrow : ∃ q, m = toy_row q).
  { revert H. unfold toy_search. case_bool_decide; [done|].
    destruct (top_k <=? 0); intros [= <-].
    - by apply elem_of_nil in Hm.
    - apply list_elem_of_fmap in Hm as (q & -> & _). by exists q. }
  destruct Hrow as [q ->]. unfold toy_row. split.
  - rewrite lookup_insert_ne by done. rewrite lookup_insert_eq. by eexists.
  - rewrite lookup_insert_ne by done. rewrite lookup_insert_ne by done.
    rewrite lookup_singleton_eq. by eexists.
Qed.

End ToyFacts.

(** ** Examples on the small engine *)

(** C1 on five queries in batches of two, the second batch completing
    first. *)
Lemma search_one_slot_per_query_in_order_witness :
  ∃ R w', Toy.run Toy.five 2 (-1) [1; 1; 0]%nat = (Return R, w') ∧
    length R = 5%nat ∧
    ∀ picks', (Toy.run Toy.five 2 (-1) picks').1 = Return R.
Proof.
  set (r := Toy.run Toy.five 2 (-1) [1; 1; 0]%nat).
  assert (Hr : r = (Return (Toy.slots r), r.2)) by (vm_compute; reflexivity).
  exists (Toy.slots r), r.2. split; [exact Hr|].
  destruct (search_one_slot_per_query_in_order Toy.engine 4 "test.duckdb"
              "bm25_documents" "bm25_tables" "documents" 10 10000 None None
              Toy.five 2 (-1) [1; 1; 0]%nat Toy.w0 ltac:(lia)) as [_ H].
  destruct (H (Toy.slots r) r.2 Hr) as (Hlen & _ & Hany).
  split; [exact Hlen|exact Hany].
Defined.

(** C3 on the two positions of the text [a], which lie in different
    batches. *)
Lemma search_equal_text_equal_slots_witness :
  ∃ R w' slot, Toy.run Toy.five 2 (-1) [1; 1; 0]%nat = (Return R, w') ∧
    R !! 0%nat = Some slot ∧ R !! 3%nat = Some slot.
Proof.
  set (r := Toy.run Toy.five 2 (-1) [1; 1; 0]%nat).
  assert (Hr : r = (Return (Toy.slots r), r.2)) by (vm_compute; reflexivity).
  destruct (search_equal_text_equal_slots Toy.engine 4 "test.duckdb"
              "bm25_documents" "bm25_tables" "documents" 10 10000 None None
              Toy.five 2 (-1) [1; 1; 0]%nat Toy.w0 r.2 (Toy.slots r)
              0%nat 3%nat "a" ltac:(lia) ToyFacts.per_query Hr eq_refl eq_refl)
    as (slot & H0 & H3).
  exists (Toy.slots r), r.2, slot. split; [exact Hr|]. split; [exact H0|exact H3].
Defined.

(** C7 on one batch of two queries. *)
Lemma _search_slot_is_tagged_subsequence_witness :
  ∃ slots w' matchs,
    _search Toy.engine "test.duckdb" "bm25_documents" "bm25_tables"
      "documents" ["a"; "miss"] 10 10000 0 None None Toy.w0
      = (Return slots, w') ∧
    Toy.toy_search [] "test.duckdb" "bm25_documents" "bm25_tables"
      "documents" 10 10000 ["a"; "miss"] None None = Return matchs ∧
    length slots = 2%nat.
Proof.
  set (r := _search Toy.engine "test.duckdb" "bm25_documents" "bm25_tables"
              "documents" ["a"; "miss"] 10 10000 0 None None Toy.w0).
  assert (Hr : r = (Return (Toy.slots r), r.2)) by (vm_compute; reflexivity).
  destruct (_search_slot_is_tagged_subsequence Toy.engine "test.duckdb"
              "bm25_documents" "bm25_tables" "documents" 10 10000 None None
              ["a"; "miss"] 0 Toy.w0 r.2 (Toy.slots r) Hr)
    as (matchs & Hm & Hlen & _).
  exists (Toy.slots r), r.2, matchs. split; [exact Hr|].
  split; [exact Hm|exact Hlen].
Defined.

(** C8 on the five queries with [top_k = 10]. *)
Lemma search_slot_at_most_top_k_witness :
  ∃ R w', Toy.run Toy.five 2 (-1) [1; 1; 0]%nat = (Return R, w') ∧
    ∃ slot, R !! 0%nat = Some slot ∧ Z.of_nat (length slot) ≤ 10.
Proof.
  set (r := Toy.run Toy.five 2 (-1) [1; 1; 0]%nat).
  assert (Hr : r = (Return (Toy.slots r), r.2)) by (vm_compute; reflexivity).
  assert (H0 : Toy.slots r !! 0%nat = Some (default [] (Toy.slots r !! 0%nat)))
    by (vm_compute; reflexivity).
  exists (Toy.slots r), r.2. split; [exact Hr|].
  exists (default [] (Toy.slots r !! 0%nat)). split; [exact H0|].
  exact (search_slot_at_most_top_k Toy.engine 4 "test.duckdb"
           "bm25_documents" "bm25_tables" "documents" 10 10000 None None
           Toy.five 2 (-1) [1; 1; 0]%nat Toy.w0 r.2 (Toy.slots r) 0%nat _
           ltac:(lia) ToyFacts.up_to_top_k Hr H0).
Defined.

(** C9 on the string of the docstring, with the default batch size. *)
Lemma search_single_string_witness :
  ∃ R w' slot, Toy.run (QStr "random query") 30 (-1) [] = (Return R, w') ∧
    R = [slot] ∧ Z.of_nat (length slot) ≤ 10 ∧
    ∀ r : record, r ∈ slot → is_Some (r !! "id") ∧ is_Some (r !! "score").
Proof.
  set (r := Toy.run (QStr "random query") 30 (-1) []).
  assert (Hr : r = (Return (Toy.slots r), r.2)) by (vm_compute; reflexivity).
  destruct (search_single_string Toy.engine 4 "test.duckdb"
              "bm25_documents" "bm25_tables" "documents" 10 10000 None None
              "random query" 30 (-1) [] Toy.w0 r.2 (Toy.slots r)
              ltac:(lia) ltac:(lia) ToyFacts.up_to_top_k ToyFacts.id_score Hr)
    as (_ & _ & slot & HR & Hlen & Hfields).
  exists (Toy.slots r), r.2, slot. split; [exact Hr|].
  split; [exact HR|]. split; [exact Hlen|exact Hfields].
Defined.

(** C10 on the query [miss], which the engine never answers. *)
Lemma search_untagged_query_gets_empty_slot_witness :
  ∃ R w', Toy.run Toy.five 2 (-1) [1; 1; 0]%nat = (Return R, w') ∧
    R !! 2%nat = Some [].
Proof.
  set (r := Toy.run Toy.five 2 (-1) [1; 1; 0]%nat).
  assert (Hr : r = (Return (Toy.slots r), r.2)) by (vm_compute; reflexivity).
  exists (Toy.slots r), r.2. split; [exact Hr|].
  destruct (search_untagged_query_gets_empty_slot Toy.engine 4 "test.duckdb"
              "bm25_documents" "bm25_tables" "documents" 10 10000 None None
              Toy.five 2 (-1) [1; 1; 0]%nat Toy.w0 r.2 (Toy.slots r) Hr)
    as (_ & H & _).
  destruct (H ltac:(lia) 2%nat "miss" eq_refl) as (batch & matchs & Hb & Hm & Hempty).
  apply Hempty. vm_compute in Hb. injection Hb as <-.
  rewrite ToyFacts.toy_retrieve in Hm. injection Hm as <-.
  intros m [->|Hin%elem_of_nil]%elem_of_cons; [|done].
  intros Ht%ToyFacts.toy_row_tagged. discriminate Ht.
Defined.

(** C2 as stated fails: a successful call leaves the staged query set, a
    failing call leaves the file of the failing batch as well. *)
Lemma search_leaves_exchange_files :
  (∃ R, (Toy.run (QStr "a") 30 (-1) []).1 = Return R) ∧
  ¬ no_exchange_file_left (Toy.run (QStr "a") 30 (-1) []).2 ∧
  (Toy.run (QStr "boom") 30 (-1) []).1 = Raise (EngineError "boom") ∧
  fs (Toy.run (QStr "boom") 30 (-1) []).2 !! parquet_name 0 = Some ["boom"] ∧
  ¬ no_exchange_file_left (Toy.run (QStr "boom") 30 (-1) []).2.
Proof.
  split; [eexists; vm_compute; reflexivity|].
  split; [intros [H _]; vm_compute in H; discriminate H|].
  split; [vm_compute; reflexivity|].
  split; [vm_compute; reflexivity|].
  intros [H _]. vm_compute in H. discriminate H.
Qed.

(** C2, amended, on the five queries: the three batch files are gone. *)
Lemma search_removes_batch_files_witness :
  ∃ R w', Toy.run Toy.five 2 (-1) [1; 1; 0]%nat = (Return R, w') ∧
    fs w' !! parquet_name 0 = None ∧
    fs w' !! parquet_name 1 = None ∧
    fs w' !! parquet_name 2 = None.
Proof.
  set (r := Toy.run Toy.five 2 (-1) [1; 1; 0]%nat).
  assert (Hr : r = (Return (Toy.slots r), r.2)) by (vm_compute; reflexivity).
  exists (Toy.slots r), r.2. split; [exact Hr|].
  destruct (search_removes_batch_files Toy.engine 4 "test.duckdb"
              "bm25_documents" "bm25_tables" "documents" 10 10000 None None
              Toy.five 2 (-1) [1; 1; 0]%nat Toy.w0 r.2 (Toy.slots r) Hr)
    as [H _].
  repeat split; apply H; vm_compute; lia.
Defined.

(** C4 on a query set whose second batch makes the engine fail. *)
Lemma search_fails_fast_witness :
  ∃ e, (Toy.run (QList ["a"; "b"; "boom"; "a"; "c"]) 2 (-1) [1; 1; 0]%nat).1
       = Raise e.
Proof.
  destruct (search_fails_fast Toy.engine 4 "test.duckdb" "bm25_documents"
              "bm25_tables" "documents" 10 10000 None None
              (QList ["a"; "b"; "boom"; "a"; "c"]) 2 (-1) [1; 1; 0]%nat Toy.w0)
    as (_ & _ & H).
  destruct (H _ _ eq_refl) as [_ H1]. destruct (H1 _ eq_refl) as [_ H2].
  destruct (H2 _ 1%nat ["boom"; "a"] (EngineError "boom") eq_refl eq_refl eq_refl)
    as (e & He & _).
  exists e. exact He.
Defined.

(** C5 on five queries that fit in one batch of thirty. *)
Lemma search_dispatch_policy_witness :
  effective_n_jobs 4 (-1) = Return 4 ∧
  ∀ picks, Toy.run Toy.five 30 (-1) picks = Toy.run Toy.five 30 (-1) [].
Proof.
  pose proof (λ picks,
    search_dispatch_policy Toy.engine 4 "test.duckdb" "bm25_documents"
      "bm25_tables" "documents" 10 10000 None None Toy.five 30 (-1) picks
      Toy.w0 _ _ _ _ eq_refl eq_refl eq_refl) as H.
  split.
  - destruct (H []) as (_ & _ & _ & Hcpu & _). apply Hcpu. lia.
  - intros picks.
    destruct (H picks) as (Hfit & _). destruct (H []) as (Hfit0 & _).
    unfold Toy.run. rewrite Hfit, Hfit0; [done| |]; vm_compute; discriminate.
Defined.

(** C6 on the five queries. *)
Lemma search_indexes_once_before_retrieval_witness :
  ∃ tail,
    log (Toy.run Toy.five 2 (-1) [1; 1; 0]%nat).2 =
      index_events ["a"; "b"; "miss"; "a"; "c"] ++ tail ∧
    Forall batch_event tail ∧
    db (Toy.run Toy.five 2 (-1) [1; 1; 0]%nat).2 = ["a"; "b"; "miss"; "a"; "c"].
Proof.
  destruct (search_indexes_once_before_retrieval Toy.engine 4 "test.duckdb"
              "bm25_documents" "bm25_tables" "documents" 10 10000 None None
              Toy.five 2 (-1) [1; 1; 0]%nat Toy.w0) as [_ H].
  destruct (H (Toy.slots (Toy.run Toy.five 2 (-1) [1; 1; 0]%nat)))
    as (settings & rest & d1 & d2 & tail & _ & H2 & H3 & Hlog & Htail & _ & Hdb).
  { vm_compute. reflexivity. }
  exists tail. split; [exact Hlog|]. split; [exact Htail|].
  unfold Toy.run. rewrite Hdb. injection H2 as <-. injection H3 as <-.
  reflexivity.
Defined.

(** * Further properties *)

(** ** Aggregation *)

Lemma group_matchs_untagged matchs :
  Exists (λ m : record, m !! "_query" = None) matchs →
  ∀ candidates, group_matchs matchs candidates = Raise (KeyError "_query").
Proof.
  induction matchs as [|m matchs IH]; intros H candidates.
  { by apply Exists_nil in H. }
  cbn [group_matchs]. unfold pop.
  destruct (m !! "_query") as [v|] eqn:Hv; [|done].
  apply Exists_cons in H as [H|H]; [congruence|]. by apply IH.
Qed.

(** X1: the aggregation raises exactly when some record returned by the
    engine has no [_query] field, and then the exception is
    [KeyError("_query")], whatever the queries of the batch. *)
Theorem aggregate_Raise_iff matchs queries e :
  aggregate matchs queries = Raise e ↔
  e = KeyError "_query" ∧ Exists (λ m : record, m !! "_query" = None) matchs.
Proof.
  unfold aggregate. split.
  - destruct (group_matchs matchs ∅) as [e'|c] eqn:E; [|done].
    intros [= <-]. by apply group_matchs_Raise in E.
  - intros [-> H]. by rewrite (group_matchs_untagged _ H).
Qed.

Lemma elem_of_slots_of matchs queries slot (r : record) :
  slot ∈ slots_of matchs queries → r ∈ slot →
  ∃ m query, m ∈ matchs ∧ query ∈ queries ∧ tagged query m ∧ r = untag m.
Proof.
  unfold slots_of. intros (query & -> & Hq)%list_elem_of_fmap.
  intros (m & -> & Hm)%list_elem_of_fmap.
  apply list_elem_of_filter in Hm as [Ht Hm]. by exists m, query.
Qed.

Lemma tagged_inj q q' (m : record) : tagged q m → tagged q' m → q = q'.
Proof. unfold tagged. congruence. Qed.

Lemma slots_of_cons matchs q qs :
  slots_of matchs (q :: qs) =
  (untag <$> filter (tagged q) matchs) :: slots_of matchs qs.
Proof. done. Qed.

Lemma slots_of_nil_matchs queries : concat (slots_of [] queries) = [].
Proof.
  induction queries as [|q queries IH]; [done|].
  by rewrite slots_of_cons, filter_nil.
Qed.

(** A record is counted once for every query that tags it; with distinct
    queries that is at most one. *)
Lemma slots_of_length_cons m matchs queries :
  NoDup queries →
  length (concat (slots_of (m :: matchs) queries)) =
  ((if decide (tagged_by queries m) then 1 else 0) +
   length (concat (slots_of matchs queries)))%nat.
Proof.
  induction 1 as [|q qs Hq Hnd IH].
  { rewrite decide_False; [done|]. unfold tagged_by. by intros ?%Exists_nil. }
  rewrite !slots_of_cons. cbn [concat]. rewrite !length_app, IH, !length_fmap.
  rewrite filter_cons.
  destruct (decide (tagged q m)) as [Ht|Ht].
  - rewrite (decide_True (P := tagged_by (q :: qs) m))
      by (apply Exists_cons; by left).
    rewrite (decide_False (P := tagged_by qs m)); [simpl; lia|].
    intros (q' & Hq' & Ht')%Exists_exists.
    by rewrite (tagged_inj _ _ _ Ht Ht') in Hq.
  - destruct (decide (tagged_by qs m)) as [Hb|Hb].
    + rewrite decide_True by (apply Exists_cons; by right). lia.
    + rewrite decide_False; [lia|]. by intros [?|?]%Exists_cons.
Qed.

Lemma slots_of_length_NoDup matchs queries :
  NoDup queries →
  length (concat (slots_of matchs queries)) =
  length (filter (tagged_by queries) matchs).
Proof.
  intros Hnd. induction matchs as [|m matchs IH].
  { by rewrite slots_of_nil_matchs. }
  rewrite (slots_of_length_cons _ _ _ Hnd), IH, filter_cons. by case_decide.
Qed.

(** ** One batch *)

Section BatchMore.

Context {DB : Type} (eng : Engine DB).
Variables (database schema source_schema source : string).
Variables (top_k top_k_token : Z).
Variables (config : option record) (filters : option string).

#[local] Abbreviation retrieve :=
  (retrieve eng database schema source_schema source top_k top_k_token
     config filters).
#[local] Abbreviation run_batch queries index :=
  (_search eng database schema source_schema source queries top_k top_k_token
     index config filters).

(** X2: when the engine returns a record without the [_query] field,
    [_search] raises [KeyError("_query")]; its exchange file has already
    been removed and the database is as before. *)
Theorem _search_untagged_record queries index (w : World DB) matchs :
  retrieve (db w) queries = Return matchs →
  Exists (λ m : record, m !! "_query" = None) matchs →
  let r := run_batch queries index w in
  r.1 = Raise (KeyError "_query") ∧
  fs r.2 !! parquet_name index = None ∧
  db r.2 = db w.
Proof.
  intros Hm Hun r. subst r. rewrite _search_run, Hm. cbn [fst snd].
  split; [unfold aggregate; by rewrite (group_matchs_untagged _ Hun)|].
  split; [|done].
  cbn [fs cleaned searched add_log set_fs]. apply lookup_delete_eq.
Qed.

(** X3: [_search] changes no file but its own.  Once the retrieval has
    returned, the file system is the initial one without
    [_queries_{index}.parquet], so a file of that name that existed before
    the call is lost; when the retrieval raises, that file holds the
    queries of the batch. *)
Theorem _search_files queries index (w : World DB) :
  let r := run_batch queries index w in
  (∀ name, name ≠ parquet_name index → fs r.2 !! name = fs w !! name) ∧
  (∀ matchs, retrieve (db w) queries = Return matchs →
     fs r.2 = delete (parquet_name index) (fs w)) ∧
  (∀ e, retrieve (db w) queries = Raise e →
     fs r.2 = <[parquet_name index := queries]> (fs w)).
Proof.
  intros r. subst r. rewrite _search_run.
  destruct (retrieve (db w) queries) as [e|matchs];
    cbn [snd fs cleaned searched add_log set_fs].
  - split; [|split; [done|by intros ? _]].
    intros name Hname. by apply lookup_insert_ne.
  - split; [|split; [by intros ? _|done]].
    intros name Hname. by apply lookup_delete_ne.
Qed.

(** X4: what [_search] returns or raises depends on the database only, not
    on the files or the log it starts from. *)
Theorem _search_outcome_from_db queries index (w1 w2 : World DB) :
  db w1 = db w2 →
  (run_batch queries index w1).1 = (run_batch queries index w2).1 ∧
  db (run_batch queries index w1).2 = db (run_batch queries index w2).2.
Proof.
  intros Hdb. rewrite !_search_run, Hdb.
  by destruct (retrieve (db w2) queries).
Qed.

(** X5: two positions of a batch that hold the same text get equal slots,
    whatever the engine returns. *)
Theorem _search_equal_text_equal_slots queries index (w w' : World DB) slots
    i j query :
  run_batch queries index w = (Return slots, w') →
  queries !! i = Some query →
  queries !! j = Some query →
  ∃ slot, slots !! i = Some slot ∧ slots !! j = Some slot.
Proof.
  rewrite _search_run. intros H Hi Hj.
  destruct (retrieve (db w) queries) as [e|matchs]; [done|].
  injection H as H _. apply aggregate_Return in H as ->.
  eexists. split; by apply slots_of_lookup.
Qed.

(** X6: every record of every slot is a record the engine returned,
    without its tag, and its tag was a query of the batch: [_search]
    invents no record and moves none to a query that did not produce it. *)
Theorem _search_slot_records_from_engine queries index (w w' : World DB) slots :
  run_batch queries index w = (Return slots, w') →
  ∃ matchs, retrieve (db w) queries = Return matchs ∧
    ∀ i slot query (r : record),
      slots !! i = Some slot → queries !! i = Some query → r ∈ slot →
      ∃ m, m ∈ matchs ∧ tagged query m ∧ r = untag m.
Proof.
  rewrite _search_run. intros H.
  destruct (retrieve (db w) queries) as [e|matchs]; [done|].
  injection H as H _. apply aggregate_Return in H as ->.
  exists matchs. split; [done|]. intros i slot query r Hs Hq Hr.
  rewrite (slots_of_lookup _ _ _ _ Hq) in Hs. injection Hs as <-.
  apply list_elem_of_fmap in Hr as (m & -> & Hm).
  apply list_elem_of_filter in Hm as [Ht Hm]. by exists m.
Qed.

(** X7: when the queries of the batch are distinct, the slots hold
    together as many records as the engine returned with the tag of a
    query of the batch: none is duplicated, and the records tagged
    otherwise are dropped. *)
Theorem _search_counts_tagged_records queries index (w w' : World DB) slots :
  NoDup queries →
  run_batch queries index w = (Return slots, w') →
  ∃ matchs, retrieve (db w) queries = Return matchs ∧
    length (concat slots) = length (filter (tagged_by queries) matchs) ∧
    (length (concat slots) ≤ length matchs)%nat.
Proof.
  rewrite _search_run. intros Hnd H.
  destruct (retrieve (db w) queries) as [e|matchs]; [done|].
  injection H as H _. apply aggregate_Return in H as ->.
  exists matchs. split; [done|].
  rewrite (slots_of_length_NoDup _ _ Hnd). split; [done|]. apply length_filter.
Qed.

End BatchMore.

(** ** The dispatcher *)

Section DispatchMore.

Context {DB : Type} {A : Type}.

(** The job that completes next, and what is left to run. *)
Lemma dispatch_pick (picks : list nat) (first : nat * M (World DB) A) running0 :
  let running := first :: running0 in
  let p := (hd 0 picks `mod` length running)%nat in
  ∃ i job, nth p running first = (i, job) ∧
    ∀ queue, running ++ queue ≡ₚ
      (i, job) :: ((delete p running ++ take 1 queue) ++ drop 1 queue).
Proof.
  intros running p.
  assert (Hp : (p < length running)%nat).
  { apply Nat.mod_upper_bound. subst running. simpl. lia. }
  destruct (lookup_lt_is_Some_2 _ _ Hp) as [[i job] Hij].
  exists i, job. split; [by rewrite nth_lookup, Hij|].
  intros queue. rewrite <- app_assoc, take_drop.
  by rewrite (delete_Permutation _ _ _ Hij) at 1.
Qed.

(** Two dispatches of jobs that cannot tell two related worlds apart end
    alike. *)
Lemma dispatch_rel (R : World DB → World DB → Prop) fuel :
  ∀ picks (running queue : list (nat * M (World DB) A)) results w1 w2,
  (∀ i job, (i, job) ∈ running ++ queue → ∀ w1 w2, R w1 w2 →
     (job w1).1 = (job w2).1 ∧ R (job w1).2 (job w2).2) →
  R w1 w2 →
  (dispatch fuel picks running queue results w1).1 =
    (dispatch fuel picks running queue results w2).1 ∧
  R (dispatch fuel picks running queue results w1).2
    (dispatch fuel picks running queue results w2).2.
Proof.
  induction fuel as [|fuel IH]; intros picks running queue results w1 w2 Hjobs HR;
    [done|].
  destruct running as [|first running0]; [done|].
  rewrite !dispatch_step. cbv zeta.
  destruct (dispatch_pick picks first running0) as (i & job & Hnth & Hperm).
  cbv zeta in Hnth, Hperm. rewrite Hnth. cbn [fst snd].
  destruct (Hjobs i job) with (w1 := w1) (w2 := w2) as [Hout HR'];
    [rewrite (Hperm queue); apply elem_of_cons; by left|done|].
  destruct (job w1) as [[e1|a1] w1'], (job w2) as [[e2|a2] w2'];
    cbn [fst snd] in *; try discriminate Hout.
  { injection Hout as <-. by split. }
  injection Hout as <-. apply IH; [|exact HR'].
  intros i' job' Hin. apply (Hjobs i' job'). rewrite (Hperm queue).
  apply elem_of_cons. by right.
Qed.


End DispatchMore.

Section ParallelMore.

Context {DB : Type} {A : Type}.
Variable cpu_count : Z.


Lemma Parallel_rel (R : World DB → World DB → Prop) n_jobs picks
    (tasks : list (M (World DB) A)) w1 w2 :
  (∀ i job, tasks !! i = Some job → ∀ w1 w2, R w1 w2 →
     (job w1).1 = (job w2).1 ∧ R (job w1).2 (job w2).2) →
  R w1 w2 →
  (Parallel cpu_count n_jobs picks tasks w1).1 =
    (Parallel cpu_count n_jobs picks tasks w2).1 ∧
  R (Parallel cpu_count n_jobs picks tasks w1).2
    (Parallel cpu_count n_jobs picks tasks w2).2.
Proof.
  intros Hjobs HR. unfold Parallel. rewrite !bind_run. unfold lift.
  destruct (effective_n_jobs cpu_count n_jobs) as [e|workers]; [done|].
  cbv zeta. rewrite !bind_run.
  destruct (dispatch_rel R (length (enumerate tasks)) picks
              (take (Z.to_nat workers) (enumerate tasks))
              (drop (Z.to_nat workers) (enumerate tasks)) ∅ w1 w2)
    as [Hout HR'].
  { rewrite take_drop. intros i job Hin%elem_of_enumerate. by eapply Hjobs. }
  { done. }
  destruct (dispatch _ _ _ _ _ w1) as [[e1|r1] w1'],
           (dispatch _ _ _ _ _ w2) as [[e2|r2] w2'];
    cbn [fst snd] in *; try discriminate Hout.
  - injection Hout as <-. by split.
  - injection Hout as <-. by split.
Qed.


End ParallelMore.

(** ** The whole search *)

Section SearchMore.

Context {DB : Type} (eng : Engine DB) (cpu_count : Z).
Variables (database schema source_schema source : string).
Variables (top_k top_k_token : Z).
Variables (config : option record) (filters : option string).

#[local] Abbreviation retrieve :=
  (retrieve eng database schema source_schema source top_k top_k_token
     config filters).
#[local] Abbreviation batch_outcome :=
  (batch_outcome eng database schema source_schema source top_k top_k_token
     config filters).
#[local] Abbreviation batch_out :=
  (batch_out eng database schema source_schema source top_k top_k_token
     config filters).
#[local] Abbreviation run_batch queries index :=
  (_search eng database schema source_schema source queries top_k top_k_token
     index config filters).
#[local] Abbreviation jobs_of queries batch_size :=
  (batch_jobs eng database schema source_schema source queries batch_size
     top_k top_k_token config filters).
#[local] Abbreviation run_search queries batch_size n_jobs picks :=
  (search eng cpu_count database schema source_schema source queries
     batch_size top_k top_k_token n_jobs config filters picks).
#[local] Abbreviation run_retrieval queries batch_size n_jobs picks :=
  (retrieval_phase eng cpu_count database schema source_schema source queries
     batch_size top_k top_k_token n_jobs config filters picks).

Lemma batch_jobs_lookup Q batch_size k job :
  jobs_of Q batch_size !! k = Some job →
  ∃ b, batchify Q batch_size !! k = Some b ∧ job = run_batch b k.
Proof.
  unfold batch_jobs, enumerate. rewrite list_lookup_fmap, list_lookup_imap.
  destruct (batchify Q batch_size !! k) as [b|]; [|done].
  cbn. intros [= <-]. by exists b.
Qed.

Lemma batch_jobs_length Q batch_size :
  length (jobs_of Q batch_size) = length (batchify Q batch_size).
Proof. unfold batch_jobs, enumerate. by rewrite length_map, length_imap. Qed.

Lemma run_retrieval_run Q batch_size n_jobs picks (w : World DB) :
  run_retrieval Q batch_size n_jobs picks w =
  match Parallel cpu_count
          (if Z.of_nat (length Q) <=? batch_size then 1 else n_jobs) picks
          (jobs_of Q batch_size) w with
  | (Raise e, w') => (Raise e, w')
  | (Return outs, w') => (Return (concat outs), w')
  end.
Proof. done. Qed.

(** X8: the result does not depend on [n_jobs]: when [search] returns, it
    returns the same list for every other number of jobs that joblib
    accepts and every completion order. *)
Theorem search_result_independent_of_n_jobs queries batch_size n_jobs picks
    (w w' : World DB) R n_jobs' picks' workers :
  run_search queries batch_size n_jobs picks w = (Return R, w') →
  effective_n_jobs cpu_count
    (if Z.of_nat (length (as_query_list queries)) <=? batch_size
     then 1 else n_jobs') = Return workers →
  (run_search queries batch_size n_jobs' picks' w).1 = Return R.
Proof.
  intros H Hjobs. set (Q := as_query_list queries) in *.
  apply search_Return_inv in H as (settings & rest & d1 & d2 & H1 & H2 & H3 & H).
  rewrite search_run. cbv zeta. fold Q in H, H2 |- *. rewrite H1, H2, H3.
  pose proof (retrieval_phase_spec eng cpu_count database schema source_schema
    source top_k top_k_token config filters Q batch_size n_jobs picks
    (indexed Q d1 d2 w)) as Hspec.
  pose proof (retrieval_phase_spec eng cpu_count database schema source_schema
    source top_k top_k_token config filters Q batch_size n_jobs' picks'
    (indexed Q d1 d2 w)) as Hspec'.
  cbv zeta in Hspec, Hspec'. rewrite H in Hspec. cbn [fst snd] in Hspec.
  destruct Hspec as [_ (outs0 & Houts0 & Hall0 & _)].
  destruct Hspec' as [_ Hres].
  destruct (run_retrieval Q batch_size n_jobs' picks' (indexed Q d1 d2 w)).1
    as [e|R'].
  - exfalso. destruct Hres as [Hraise|(k & b & Hb & Hraise)]; [congruence|].
    destruct (Forall2_lookup_l _ _ _ _ _ Hall0 Hb) as (s & _ & Hret).
    congruence.
  - destruct Hres as (outs' & -> & Hall' & _). rewrite Houts0. f_equal. f_equal.
    apply list_eq_same_length with (length (batchify Q batch_size)).
    + symmetry. by eapply Forall2_length.
    + symmetry. by eapply Forall2_length.
    + intros k s' s Hk Hs' Hs.
      destruct (lookup_lt_is_Some_2 _ _ Hk) as [b Hb].
      pose proof (Forall2_lookup_lr _ _ _ _ _ _ Hall' Hb Hs').
      pose proof (Forall2_lookup_lr _ _ _ _ _ _ Hall0 Hb Hs).
      congruence.
Qed.

(** X9: what [search] returns or raises, and the database it leaves,
    depend on the database it starts from only: exchange files left by an
    earlier call change nothing. *)
Theorem search_outcome_from_db queries batch_size n_jobs picks (w1 w2 : World DB) :
  db w1 = db w2 →
  (run_search queries batch_size n_jobs picks w1).1 =
    (run_search queries batch_size n_jobs picks w2).1 ∧
  db (run_search queries batch_size n_jobs picks w1).2 =
    db (run_search queries batch_size n_jobs picks w2).2.
Proof.
  intros Hdb. rewrite !search_run. cbv zeta. rewrite Hdb.
  destruct (select_settings eng (db w2) database schema config)
    as [e|[|settings rest]]; [done|done|].
  destruct (insert_queries eng (db w2) database schema _ config) as [e|d1];
    [done|].
  destruct (create_queries_index eng d1 database schema settings config)
    as [e|d2]; [done|].
  set (Q := as_query_list queries). rewrite !run_retrieval_run.
  destruct (Parallel_rel cpu_count (λ a b : World DB, db a = db b)
              (if Z.of_nat (length Q) <=? batch_size then 1 else n_jobs) picks
              (jobs_of Q batch_size) (indexed Q d1 d2 w1) (indexed Q d1 d2 w2))
    as [Hout Hdb'].
  { intros k job (b & _ & ->)%batch_jobs_lookup u1 u2 Hu.
    rewrite !_search_run, Hu. by destruct (retrieve (db u2) b). }
  { done. }
  destruct (Parallel _ _ _ _ (indexed Q d1 d2 w1)) as [[e1|o1] u1],
           (Parallel _ _ _ _ (indexed Q d1 d2 w2)) as [[e2|o2] u2];
    cbn [fst snd] in *; try discriminate Hout.
  - injection Hout as <-. by split.
  - injection Hout as <-. by split.
Qed.



(** The files that the batches of a call may touch. *)
Lemma retrieval_frame Q batch_size n_jobs picks (w : World DB) name :
  (∀ k, (k < length (batchify Q batch_size))%nat → name ≠ parquet_name k) →
  fs (run_retrieval Q batch_size n_jobs picks w).2 !! name = fs w !! name.
Proof.
  intros Hname. rewrite run_retrieval_run.
  pose proof (Parallel_spec
    (λ u : World DB, db u = db w ∧ fs u !! name = fs w !! name)
    (λ _ _, True) (batch_out (db w) (batchify Q batch_size)) cpu_count
    (if Z.of_nat (length Q) <=? batch_size then 1 else n_jobs) picks
    (jobs_of Q batch_size) w) as Hspec.
  cbv zeta in Hspec. destruct Hspec as [[_ Hfs] _]; [|done|].
  { intros k job Hjob u [Hdb Hu].
    pose proof (lookup_lt_Some _ _ _ Hjob) as Hk. rewrite batch_jobs_length in Hk.
    apply batch_jobs_lookup in Hjob as (b & Hb & ->).
    rewrite _search_run. unfold batch_out. rewrite Hb.
    unfold batch_outcome. rewrite Hdb.
    destruct (retrieve (db w) b) as [e|matchs]; cbn [fst snd].
    - split; [done|]. split; [|done]. split; [done|].
      cbn [fs searched add_log set_fs]. rewrite lookup_insert_ne; [done|].
      intros Heq. by apply (Hname k).
    - split; [done|]. split; [|done]. split; [done|].
      cbn [fs cleaned searched add_log set_fs]. rewrite lookup_delete_ne; [done|].
      intros Heq. by apply (Hname k). }
  by destruct (Parallel _ _ _ _ w) as [[e|outs] u].
Qed.

(** X11: whether it returns or raises, [search] changes no file other
    than [_queries.parquet] and the files [_queries_{k}.parquet] of its
    batches. *)
Theorem search_touches_only_exchange_files queries batch_size n_jobs picks
    (w : World DB) name :
  name ≠ "_queries.parquet" →
  (∀ k, (k < length (batchify (as_query_list queries) batch_size))%nat →
        name ≠ parquet_name k) →
  fs (run_search queries batch_size n_jobs picks w).2 !! name = fs w !! name.
Proof.
  intros Hstaged Hbatch. rewrite search_run. cbv zeta.
  destruct (select_settings eng (db w) database schema config)
    as [e|[|settings rest]]; [done|done|].
  assert (Hs : fs (staged (as_query_list queries) w) !! name = fs w !! name).
  { cbn [fs staged add_log set_fs]. by rewrite lookup_insert_ne. }
  destruct (insert_queries eng (db w) database schema _ config) as [e|d1];
    [done|].
  destruct (create_queries_index eng d1 database schema settings config)
    as [e|d2]; [done|].
  by rewrite retrieval_frame.
Qed.

(** X12: once the settings are found, [_queries.parquet] holds the whole
    query set when [search] ends, whether it returns or raises: the staged
    file is never removed, and a file of that name that existed before is
    overwritten. *)
Theorem search_leaves_staged_file queries batch_size n_jobs picks (w : World DB)
    settings rest :
  select_settings eng (db w) database schema config = Return (settings :: rest) →
  fs (run_search queries batch_size n_jobs picks w).2 !! "_queries.parquet" =
    Some (as_query_list queries).
Proof.
  intros H1. rewrite search_run. cbv zeta. rewrite H1.
  assert (Hs : ∀ d, fs (add_log EvCreateQueriesIndex
                          (set_db d (staged (as_query_list queries) w)))
                      !! "_queries.parquet" = Some (as_query_list queries)).
  { intros d. cbn [fs staged add_log set_fs set_db]. apply lookup_insert_eq. }
  destruct (insert_queries eng (db w) database schema _ config) as [e|d1].
  { cbn [snd fs staged add_log set_fs]. apply lookup_insert_eq. }
  destruct (create_queries_index eng d1 database schema settings config)
    as [e|d2]; [apply Hs|].
  rewrite retrieval_frame; [apply (Hs d1)|].
  intros k _ Heq. by apply (parquet_name_not_staged k).
Qed.

(** X13: when the settings lookup raises or finds no row, [search] raises
    before staging anything: no file is written and the database is not
    touched. *)
Theorem search_without_settings queries batch_size n_jobs picks (w : World DB) :
  (∃ e, select_settings eng (db w) database schema config = Raise e) ∨
  select_settings eng (db w) database schema config = Return [] →
  let r := run_search queries batch_size n_jobs picks w in
  (∃ e, r.1 = Raise e) ∧ fs r.2 = fs w ∧ db r.2 = db w ∧
  log r.2 = log w ++ [EvSelectSettings].
Proof.
  intros H r. subst r. rewrite search_run. cbv zeta.
  destruct H as [[e ->]| ->]; (split; [by eexists|done]).
Qed.

(** X14: nothing is rolled back when the index build raises: [search]
    raises the same exception, the database is the one the insert left,
    with the queries loaded, the staged file is on disk and no batch has
    run. *)
Theorem search_index_failure_keeps_insert queries batch_size n_jobs picks
    (w : World DB) settings rest d1 e :
  let Q := as_query_list queries in
  select_settings eng (db w) database schema config = Return (settings :: rest) →
  insert_queries eng (db w) database schema Q config = Return d1 →
  create_queries_index eng d1 database schema settings config = Raise e →
  let r := run_search queries batch_size n_jobs picks w in
  r.1 = Raise e ∧ db r.2 = d1 ∧
  fs r.2 = <["_queries.parquet" := Q]> (fs w) ∧
  log r.2 = log w ++ index_events Q.
Proof.
  intros Q H1 H2 H3 r. subst r. rewrite search_run. cbv zeta. fold Q.
  rewrite H1, H2, H3. do 3 (split; [done|]).
  cbn [snd log staged add_log set_fs set_db index_events].
  by rewrite <- !app_assoc.
Qed.

(** X15: the batch size changes how the work is cut, not the result: two
    calls that differ in [batch_size], [n_jobs] and completion order and
    both return give the same list, when the engine answers a query
    independently of the rest of its batch. *)
Theorem search_result_independent_of_batch_size queries
    batch_size1 n_jobs1 picks1 batch_size2 n_jobs2 picks2
    (w w1 w2 : World DB) R1 R2 :
  0 < batch_size1 → 0 < batch_size2 →
  retrieve_per_query eng →
  run_search queries batch_size1 n_jobs1 picks1 w = (Return R1, w1) →
  run_search queries batch_size2 n_jobs2 picks2 w = (Return R2, w2) →
  R1 = R2.
Proof.
  intros Hb1 Hb2 Hper H1 H2.
  assert (Hdb : db w1 = db w2).
  { pose proof H1 as H1'. pose proof H2 as H2'.
    apply search_Return_inv in H1' as (s1 & r1 & d1 & e1 & Ha & Hb & Hc & Hr1).
    apply search_Return_inv in H2' as (s2 & r2 & d1' & e2 & Ha' & Hb' & Hc' & Hr2).
    rewrite Ha in Ha'. injection Ha' as <- <-.
    rewrite Hb in Hb'. injection Hb' as <-.
    rewrite Hc in Hc'. injection Hc' as <-.
    pose proof (retrieval_phase_spec eng cpu_count database schema source_schema
      source top_k top_k_token config filters (as_query_list queries)
      batch_size1 n_jobs1 picks1 (indexed (as_query_list queries) d1 e1 w))
      as [(Hd1 & _) _].
    pose proof (retrieval_phase_spec eng cpu_count database schema source_schema
      source top_k top_k_token config filters (as_query_list queries)
      batch_size2 n_jobs2 picks2 (indexed (as_query_list queries) d1 e1 w))
      as [(Hd2 & _) _].
    rewrite Hr1 in Hd1. rewrite Hr2 in Hd2. cbn [snd] in Hd1, Hd2. congruence. }
  pose proof (search_Return_length eng cpu_count database schema source_schema
    source top_k top_k_token config filters _ _ _ _ _ _ _ Hb1 H1) as Hl1.
  pose proof (search_Return_length eng cpu_count database schema source_schema
    source top_k top_k_token config filters _ _ _ _ _ _ _ Hb2 H2) as Hl2.
  apply list_eq_same_length with (length (as_query_list queries)); [done|done|].
  intros i x y Hi Hx Hy.
  - destruct (lookup_lt_is_Some_2 _ _ Hi) as [query Hq].
    destruct (search_Return_lookup _ _ _ _ _ _ _ _ _ _ _ _ _ _ _ _ _ _ _ Hb1 H1 Hq)
      as (b1 & m1 & _ & Hq1 & Hm1 & HR1).
    destruct (search_Return_lookup _ _ _ _ _ _ _ _ _ _ _ _ _ _ _ _ _ _ _ Hb2 H2 Hq)
      as (b2 & m2 & _ & Hq2 & Hm2 & HR2).
    rewrite Hdb in Hm1.
    assert (Heq : filter (tagged query) m1 = filter (tagged query) m2).
    { eapply Hper; [exact Hm1|exact Hm2| |]; by eapply list_elem_of_lookup_2. }
    congruence.
Qed.

Lemma batch_jobs_imap Q batch_size :
  jobs_of Q batch_size =
  imap (λ i b, run_batch b (0 + i)) (batchify Q batch_size).
Proof.
  unfold batch_jobs, enumerate.
  change (map ?f ?l) with (f <$> l). by rewrite fmap_imap.
Qed.

Lemma batch_event_upto_le n n' e :
  (n ≤ n')%nat → batch_event_upto n e → batch_event_upto n' e.
Proof. intros Hle (k & rows & Hk & He). exists k, rows. split; [lia|done]. Qed.

(** Jobs run in input order stop at the first batch that fails. *)
Lemma run_serially_first_failure (batches : list (list string)) :
  ∀ s (w : World DB) k b e,
  batches !! k = Some b →
  batch_outcome (db w) b = Raise e →
  (∀ j bj, (j < k)%nat → batches !! j = Some bj →
     ∃ slots, batch_outcome (db w) bj = Return slots) →
  let r := run_serially (imap (λ i b, run_batch b (s + i)) batches) w in
  r.1 = Raise e ∧ db r.2 = db w ∧
  ∃ tail, log r.2 = log w ++ tail ∧ Forall (batch_event_upto (s + k)) tail.
Proof.
  induction batches as [|b0 batches IH]; intros s w k b e Hk He Hbefore; [done|].
  cbv zeta. cbn [imap run_serially]. rewrite bind_run, _search_run.
  destruct k as [|k].
  - injection Hk as ->. unfold batch_outcome in He.
    destruct (retrieve (db w) b) as [e'|matchs].
    + injection He as ->. split; [done|]. split; [done|].
      exists [EvWrite (parquet_name (s + 0)) b; EvSearch (parquet_name (s + 0)) b].
      split; [cbn [snd log searched add_log set_fs]; by rewrite <- !app_assoc|].
      repeat first [apply Forall_nil_2 | apply Forall_cons_2];
        exists (s + 0)%nat, b; (split; [done|tauto]).
    + rewrite He. split; [done|]. split; [done|].
      exists [EvWrite (parquet_name (s + 0)) b; EvSearch (parquet_name (s + 0)) b;
              EvRemove (parquet_name (s + 0))].
      split; [cbn [snd log cleaned searched add_log set_fs];
              by rewrite <- !app_assoc|].
      repeat first [apply Forall_nil_2 | apply Forall_cons_2];
        exists (s + 0)%nat, b; (split; [done|tauto]).
  - destruct (Hbefore 0%nat b0 ltac:(lia) eq_refl) as [slots Hslots].
    unfold batch_outcome in Hslots.
    destruct (retrieve (db w) b0) as [e'|matchs]; [done|]. rewrite Hslots.
    rewrite bind_run.
    rewrite (imap_ext _ (λ i b, run_batch b (S s + i)) batches)
      by (intros; cbn; do 2 f_equal; lia).
    specialize (IH (S s) (cleaned (s + 0) b0 w) k b e Hk He).
    destruct IH as (Hr & Hdb & tail & Hlog & Htail).
    { intros j bj Hj Hbj. apply (Hbefore (S j) bj); [lia|done]. }
    destruct (run_serially _ (cleaned (s + 0) b0 w)) as [[e'|l] w'];
      cbn [fst snd] in *; [|done].
    split; [done|]. split; [done|].
    exists ([EvWrite (parquet_name (s + 0)) b0; EvSearch (parquet_name (s + 0)) b0;
             EvRemove (parquet_name (s + 0))] ++ tail).
    split.
    + rewrite Hlog. cbn [log cleaned searched add_log set_fs].
      by rewrite <- !app_assoc.
    + apply Forall_app. split.
      * repeat first [apply Forall_nil_2 | apply Forall_cons_2];
          exists (s + 0)%nat, b0; (split; [lia|tauto]).
      * eapply Forall_impl; [exact Htail|]. intros ev.
        apply batch_event_upto_le. lia.
Qed.

(** X16: with one worker, that is when [n_jobs] is 1 or the query set
    fits in one batch, the exception [search] raises is the one of the
    first failing batch in input order, and no later batch is started:
    the log holds no effect of a batch after it. *)
Theorem search_serial_first_failure queries batch_size n_jobs picks
    (w : World DB) settings rest d1 d2 k b e :
  let Q := as_query_list queries in
  n_jobs = 1 ∨ Z.of_nat (length Q) ≤ batch_size →
  select_settings eng (db w) database schema config = Return (settings :: rest) →
  insert_queries eng (db w) database schema Q config = Return d1 →
  create_queries_index eng d1 database schema settings config = Return d2 →
  batchify Q batch_size !! k = Some b →
  batch_outcome d2 b = Raise e →
  (∀ j bj, (j < k)%nat → batchify Q batch_size !! j = Some bj →
     ∃ slots, batch_outcome d2 bj = Return slots) →
  let r := run_search queries batch_size n_jobs picks w in
  r.1 = Raise e ∧
  ∃ tail, log r.2 = log w ++ index_events Q ++ tail ∧
          Forall (batch_event_upto k) tail.
Proof.
  intros Q Hone H1 H2 H3 Hk He Hbefore r. subst r.
  rewrite search_run. cbv zeta. fold Q. rewrite H1, H2, H3, run_retrieval_run.
  assert (Harg : (if Z.of_nat (length Q) <=? batch_size then 1 else n_jobs) = 1).
  { destruct Hone as [->|Hfit]; [by destruct (Z.of_nat (length Q) <=? batch_size)|].
    by rewrite (proj2 (Z.leb_le _ _) Hfit). }
  rewrite Harg, Parallel_one_worker, batch_jobs_imap.
  destruct (run_serially_first_failure (batchify Q batch_size) 0
              (indexed Q d1 d2 w) k b e Hk He Hbefore)
    as (Hr & _ & tail & Hlog & Htail).
  destruct (run_serially _ (indexed Q d1 d2 w)) as [[e'|l] w'];
    cbn [fst snd] in *; [|done].
  injection Hr as ->. split; [done|]. exists tail. split; [|done].
  rewrite Hlog. cbn [log indexed staged add_log set_fs set_db index_events].
  by rewrite <- !app_assoc.
Qed.

End SearchMore.

(** ** The choice of the retrieval statement *)

(** X18: [_search] runs one retrieval statement only: the one with filters
    as soon as [filters] is not [None], be it the empty string, and the
    one without otherwise; what the other statement would do is never
    consulted. *)
Theorem _search_one_statement {DB : Type} (eng eng' : Engine DB)
    database schema source_schema source queries top_k top_k_token index
    config filters (w : World DB) :
  (if filters is Some _
   then search_query_filters eng = search_query_filters eng'
   else search_query eng = search_query eng') →
  _search eng database schema source_schema source queries top_k top_k_token
    index config filters w =
  _search eng' database schema source_schema source queries top_k top_k_token
    index config filters w.
Proof.
  intros H. rewrite !_search_run. unfold retrieve.
  destruct filters; by rewrite H.
Qed.

(** ** The wrappers *)


(** ** Further examples *)

(** X2 on an engine whose record has no [_query] field. *)
Lemma _search_untagged_record_witness :
  let r := _search Faulty.untagged "test.duckdb" "bm25_documents" "bm25_tables"
             "documents" ["a"] 10 10000 0 None None Toy.w0 in
  r.1 = Raise (KeyError "_query") ∧ fs r.2 !! parquet_name 0 = None.
Proof.
  destruct (_search_untagged_record Faulty.untagged "test.duckdb"
              "bm25_documents" "bm25_tables" "documents" 10 10000 None None
              ["a"] 0 Toy.w0 _ eq_refl) as (Hr & Hfs & _).
  - apply Exists_cons_hd. vm_compute. reflexivity.
  - split; [exact Hr|exact Hfs].
Defined.

(** X4 on a clean world and on one with files left by an earlier call. *)
Lemma _search_outcome_from_db_witness :
  (_search Toy.engine "test.duckdb" "bm25_documents" "bm25_tables" "documents"
     ["a"; "miss"] 10 10000 0 None None Toy.w0).1 =
  (_search Toy.engine "test.duckdb" "bm25_documents" "bm25_tables" "documents"
     ["a"; "miss"] 10 10000 0 None None Faulty.littered).1.
Proof.
  exact (proj1 (_search_outcome_from_db Toy.engine "test.duckdb"
           "bm25_documents" "bm25_tables" "documents" 10 10000 None None
           ["a"; "miss"] 0 Toy.w0 Faulty.littered eq_refl)).
Defined.

(** X5 on a batch that repeats the text [a]. *)
Lemma _search_equal_text_equal_slots_witness :
  ∃ slots w' slot,
    _search Toy.engine "test.duckdb" "bm25_documents" "bm25_tables" "documents"
      ["a"; "b"; "a"] 10 10000 0 None None Toy.w0 = (Return slots, w') ∧
    slots !! 0%nat = Some slot ∧ slots !! 2%nat = Some slot.
Proof.
  set (r := _search Toy.engine "test.duckdb" "bm25_documents" "bm25_tables"
              "documents" ["a"; "b"; "a"] 10 10000 0 None None Toy.w0).
  assert (Hr : r = (Return (Toy.slots r), r.2)) by (vm_compute; reflexivity).
  destruct (_search_equal_text_equal_slots Toy.engine "test.duckdb"
              "bm25_documents" "bm25_tables" "documents" 10 10000 None None
              ["a"; "b"; "a"] 0 Toy.w0 r.2 (Toy.slots r) 0%nat 2%nat "a"
              Hr eq_refl eq_refl) as (slot & H0 & H2).
  exists (Toy.slots r), r.2, slot. split; [exact Hr|]. split; [exact H0|exact H2].
Defined.

(** X6 on a batch of two queries. *)
Lemma _search_slot_records_from_engine_witness :
  ∃ slots w' matchs,
    _search Toy.engine "test.duckdb" "bm25_documents" "bm25_tables" "documents"
      ["a"; "b"] 10 10000 0 None None Toy.w0 = (Return slots, w') ∧
    Toy.toy_search [] "test.duckdb" "bm25_documents" "bm25_tables"
      "documents" 10 10000 ["a"; "b"] None None = Return matchs ∧
    ∀ slot (r : record), slots !! 1%nat = Some slot → r ∈ slot →
      ∃ m, m ∈ matchs ∧ tagged "b" m ∧ r = untag m.
Proof.
  set (r := _search Toy.engine "test.duckdb" "bm25_documents" "bm25_tables"
              "documents" ["a"; "b"] 10 10000 0 None None Toy.w0).
  assert (Hr : r = (Return (Toy.slots r), r.2)) by (vm_compute; reflexivity).
  destruct (_search_slot_records_from_engine Toy.engine "test.duckdb"
              "bm25_documents" "bm25_tables" "documents" 10 10000 None None
              ["a"; "b"] 0 Toy.w0 r.2 (Toy.slots r) Hr) as (matchs & Hm & H).
  exists (Toy.slots r), r.2, matchs. split; [exact Hr|]. split; [exact Hm|].
  intros slot rec Hs Hrec. exact (H 1%nat slot "b" rec Hs eq_refl Hrec).
Defined.

(** X7 on a batch of two distinct queries. *)
Lemma _search_counts_tagged_records_witness :
  ∃ slots w' (matchs : list record),
    _search Toy.engine "test.duckdb" "bm25_documents" "bm25_tables" "documents"
      ["a"; "miss"] 10 10000 0 None None Toy.w0 = (Return slots, w') ∧
    (length (concat slots) ≤ length matchs)%nat.
Proof.
  set (r := _search Toy.engine "test.duckdb" "bm25_documents" "bm25_tables"
              "documents" ["a"; "miss"] 10 10000 0 None None Toy.w0).
  assert (Hr : r = (Return (Toy.slots r), r.2)) by (vm_compute; reflexivity).
  assert (Hnd : NoDup ["a"; "miss"]).
  { apply (bool_decide_unpack _). vm_compute. exact I. }
  destruct (_search_counts_tagged_records Toy.engine "test.duckdb"
              "bm25_documents" "bm25_tables" "documents" 10 10000 None None
              ["a"; "miss"] 0 Toy.w0 r.2 (Toy.slots r) Hnd Hr)
    as (matchs & _ & _ & Hle).
  exists (Toy.slots r), r.2, matchs. split; [exact Hr|exact Hle].
Defined.

(** X8 on the five queries: every processor, then two workers. *)
Lemma search_result_independent_of_n_jobs_witness :
  ∃ R w', Toy.run Toy.five 2 (-1) [1; 1; 0]%nat = (Return R, w') ∧
    (Toy.run Toy.five 2 2 [0; 1]%nat).1 = Return R.
Proof.
  set (r := Toy.run Toy.five 2 (-1) [1; 1; 0]%nat).
  assert (Hr : r = (Return (Toy.slots r), r.2)) by (vm_compute; reflexivity).
  exists (Toy.slots r), r.2. split; [exact Hr|].
  exact (search_result_independent_of_n_jobs Toy.engine 4 "test.duckdb"
           "bm25_documents" "bm25_tables" "documents" 10 10000 None None
           Toy.five 2 (-1) [1; 1; 0]%nat Toy.w0 r.2 (Toy.slots r) 2
           [0; 1]%nat 2 Hr eq_refl).
Defined.

(** X9 on a clean world and on one with files left by an earlier call. *)
Lemma search_outcome_from_db_witness :
  (search Toy.engine 4 "test.duckdb" "bm25_documents" "bm25_tables" "documents"
     Toy.five 2 10 10000 (-1) None None [1; 1; 0]%nat Toy.w0).1 =
  (search Toy.engine 4 "test.duckdb" "bm25_documents" "bm25_tables" "documents"
     Toy.five 2 10 10000 (-1) None None [1; 1; 0]%nat Faulty.littered).1.
Proof.
  exact (proj1 (search_outcome_from_db Toy.engine 4 "test.duckdb"
           "bm25_documents" "bm25_tables" "documents" 10 10000 None None
           Toy.five 2 (-1) [1; 1; 0]%nat Toy.w0 Faulty.littered eq_refl)).
Defined.


(** X11 on a world that holds a file of the caller. *)
Lemma search_touches_only_exchange_files_witness :
  fs (search Toy.engine 4 "test.duckdb" "bm25_documents" "bm25_tables"
        "documents" Toy.five 2 10 10000 (-1) None None [1; 1; 0]%nat
        Faulty.littered).2 !! "notes.txt" = Some ["keep"].
Proof.
  rewrite (search_touches_only_exchange_files Toy.engine 4 "test.duckdb"
             "bm25_documents" "bm25_tables" "documents" 10 10000 None None
             Toy.five 2 (-1) [1; 1; 0]%nat Faulty.littered "notes.txt").
  - vm_compute. reflexivity.
  - discriminate.
  - intros k _ Heq. unfold parquet_name in Heq.
    cbv beta iota zeta delta [String.append] in Heq. discriminate Heq.
Defined.

(** X12 on a world where an older staged file exists. *)
Lemma search_leaves_staged_file_witness :
  fs (search Toy.engine 4 "test.duckdb" "bm25_documents" "bm25_tables"
        "documents" Toy.five 2 10 10000 (-1) None None [1; 1; 0]%nat
        Faulty.littered).2 !! "_queries.parquet" =
  Some ["a"; "b"; "miss"; "a"; "c"].
Proof.
  exact (search_leaves_staged_file Toy.engine 4 "test.duckdb" "bm25_documents"
           "bm25_tables" "documents" 10 10000 None None Toy.five 2 (-1)
           [1; 1; 0]%nat Faulty.littered _ _ eq_refl).
Defined.

(** X13 on a schema without settings. *)
Lemma search_without_settings_witness :
  let r := search Faulty.no_settings 4 "test.duckdb" "bm25_documents"
             "bm25_tables" "documents" Toy.five 2 10 10000 (-1) None None []
             Faulty.littered in
  (∃ e, r.1 = Raise e) ∧ fs r.2 = fs Faulty.littered ∧ db r.2 = [].
Proof.
  destruct (search_without_settings Faulty.no_settings 4 "test.duckdb"
              "bm25_documents" "bm25_tables" "documents" 10 10000 None None
              Toy.five 2 (-1) [] Faulty.littered (or_intror eq_refl))
    as (He & Hfs & Hdb & _).
  split; [exact He|]. split; [exact Hfs|exact Hdb].
Defined.

(** X14 on an engine whose index build fails. *)
Lemma search_index_failure_keeps_insert_witness :
  let r := search Faulty.index_fails 4 "test.duckdb" "bm25_documents"
             "bm25_tables" "documents" Toy.five 2 10 10000 (-1) None None []
             Toy.w0 in
  r.1 = Raise (EngineError "index") ∧ db r.2 = ["a"; "b"; "miss"; "a"; "c"].
Proof.
  destruct (search_index_failure_keeps_insert Faulty.index_fails 4
              "test.duckdb" "bm25_documents" "bm25_tables" "documents" 10 10000
              None None Toy.five 2 (-1) [] Toy.w0 _ _ _ _
              eq_refl eq_refl eq_refl) as (Hr & Hdb & _).
  split; [exact Hr|exact Hdb].
Defined.

(** X15 on the five queries: batches of two, then one batch of thirty. *)
Lemma search_result_independent_of_batch_size_witness :
  ∃ R w1 w2, Toy.run Toy.five 2 (-1) [1; 1; 0]%nat = (Return R, w1) ∧
             Toy.run Toy.five 30 1 [] = (Return R, w2).
Proof.
  set (r1 := Toy.run Toy.five 2 (-1) [1; 1; 0]%nat).
  set (r2 := Toy.run Toy.five 30 1 []).
  assert (H1 : r1 = (Return (Toy.slots r1), r1.2)) by (vm_compute; reflexivity).
  assert (H2 : r2 = (Return (Toy.slots r2), r2.2)) by (vm_compute; reflexivity).
  exists (Toy.slots r1), r1.2, r2.2. split; [exact H1|].
  rewrite (search_result_independent_of_batch_size Toy.engine 4 "test.duckdb"
             "bm25_documents" "bm25_tables" "documents" 10 10000 None None
             Toy.five 2 (-1) [1; 1; 0]%nat 30 1 [] Toy.w0 r1.2 r2.2
             (Toy.slots r1) (Toy.slots r2) ltac:(lia) ltac:(lia)
             ToyFacts.per_query H1 H2).
  exact H2.
Defined.

(** X16 on five queries in batches of two, the second of which fails. *)
Lemma search_serial_first_failure_witness :
  let r := Toy.run (QList ["a"; "b"; "boom"; "a"; "c"]) 2 1 [] in
  r.1 = Raise (EngineError "boom") ∧
  ∃ tail, log r.2 = index_events ["a"; "b"; "boom"; "a"; "c"] ++ tail ∧
          Forall (batch_event_upto 1) tail.
Proof.
  refine (search_serial_first_failure Toy.engine 4 "test.duckdb"
            "bm25_documents" "bm25_tables" "documents" 10 10000 None None
            (QList ["a"; "b"; "boom"; "a"; "c"]) 2 1 [] Toy.w0 _ _ _ _
            1%nat ["boom"; "a"] (EngineError "boom")
            (or_introl eq_refl) eq_refl eq_refl eq_refl eq_refl _ _).
  - vm_compute. reflexivity.
  - intros [|j] bj Hj Hbj; [|lia].
    vm_compute in Hbj. injection Hbj as <-. eexists. vm_compute. reflexivity.
Defined.

(** X18 with the empty string as filter, on two engines whose statements
    without filters differ. *)
Lemma _search_one_statement_witness :
  _search Toy.engine "test.duckdb" "bm25_documents" "bm25_tables" "documents"
    ["a"] 10 10000 0 None (Some EmptyString) Toy.w0 =
  _search Faulty.no_plain_search "test.duckdb" "bm25_documents" "bm25_tables"
    "documents" ["a"] 10 10000 0 None (Some EmptyString) Toy.w0.
Proof.
  exact (_search_one_statement Toy.engine Faulty.no_plain_search "test.duckdb"
           "bm25_documents" "bm25_tables" "documents" ["a"] 10 10000 0 None
           (Some EmptyString) Toy.w0 eq_refl).
Defined.
